(** * PubMed scraper: affiliation classifier, email extractor, date
      normaliser and document parser

    A shallow embedding of [pubmed_scraper/config.py],
    [pubmed_scraper/core/utils.py] and [pubmed_scraper/core/parser.py],
    followed by the properties of the specification that concern them.

    Python's [str] is a sequence of Unicode code points: a text is a list
    of code points of type [N].  What the program takes from its platform
    and its source does not determine is a parameter of the development:
    the Unicode character tables outside ASCII (case mapping, alphanumeric
    and digit classes; the ASCII part, on which every keyword and pattern
    of the program lives, is written out), the iteration order of a set,
    and the XML parser. *)

From Stdlib Require Import String Ascii.
From Stdlib Require Import List Bool Arith NArith Lia.
Import ListNotations.

Local Open Scope N_scope.

(** ** Texts *)

Definition str := list N.

(** An ASCII literal as a text. *)
Definition text (s : string) : str := map N_of_ascii (list_ascii_of_string s).

Definition str_eqb (a b : str) : bool :=
  if list_eq_dec N.eq_dec a b then true else false.

(** Truth value of a [str]: the empty text is falsy. *)
Definition truthy (s : str) : bool :=
  match s with [] => false | _ :: _ => true end.

(** [x or ""] for an optional text. *)
Definition or_empty (o : option str) : str :=
  match o with Some s => s | None => [] end.

(** [str.isspace] on one code point: the code points of bidirectional class
    WS, B or S and of category Zs. *)
Definition isspace (c : N) : bool :=
  ((9 <=? c) && (c <=? 13)) || ((28 <=? c) && (c <=? 32))
  || (c =? 133) || (c =? 160) || (c =? 5760)
  || ((8192 <=? c) && (c <=? 8202))
  || (c =? 8232) || (c =? 8233) || (c =? 8239) || (c =? 8287) || (c =? 12288).

Fixpoint lstrip (s : str) : str :=
  match s with
  | c :: r => if isspace c then lstrip r else s
  | [] => []
  end.

Definition rstrip (s : str) : str := rev (lstrip (rev s)).

(** [s.strip()] *)
Definition strip (s : str) : str := rstrip (lstrip s).

(** [needle in hay] on texts. *)
Fixpoint starts_with (w s : str) : bool :=
  match w, s with
  | [], _ => true
  | a :: w', b :: s' => (a =? b) && starts_with w' s'
  | _ :: _, [] => false
  end.

Fixpoint contains (needle hay : str) : bool :=
  starts_with needle hay
  || match hay with
     | [] => false
     | _ :: r => contains needle r
     end.

(** [sep.join(parts)] *)
Fixpoint join (sep : str) (parts : list str) : str :=
  match parts with
  | [] => []
  | [p] => p
  | p :: rest => p ++ sep ++ join sep rest
  end.

(** [x in l] for a list of texts. *)
Definition mem (x : str) (l : list str) : bool := existsb (str_eqb x) l.

(** [if x not in l: l.append(x)] *)
Definition append_new (l : list str) (x : str) : list str :=
  if mem x l then l else l ++ [x].

(** ** Exceptions *)

Inductive exn := ParseError | OtherException.

Inductive res (A : Type) :=
| Ok (a : A)
| Raise (e : exn).
Arguments Ok {A} a.
Arguments Raise {A} e.

(** ** Regular expressions of the program

    The patterns of [utils.py] are sequences of four kinds of items: the
    word boundary, a literal character, a group of literal alternatives and
    a greedy repetition of a character class.  [match_here] is the
    backtracking matcher of [re] on such sequences: alternatives are tried
    left to right and a repetition gives back one character at a time. *)

Inductive atom :=
| Boundary
| Literal (c : N)
| Group (alts : list str)
| Class (cls : N -> bool) (min : nat).

Fixpoint run (cls : N -> bool) (s : str) : nat :=
  match s with
  | c :: r => if cls c then S (run cls r) else O
  | [] => O
  end.

Fixpoint greedy (min k : nat) (cont : nat -> option nat) : option nat :=
  if (k <? min)%nat then None
  else match cont k with
       | Some m => Some m
       | None => match k with
                 | O => None
                 | S k' => greedy min k' cont
                 end
       end.

Fixpoint first_alt (alts : list str) (cont : str -> option nat) : option nat :=
  match alts with
  | [] => None
  | w :: rest => match cont w with
                 | Some m => Some m
                 | None => first_alt rest cont
                 end
  end.

(** The character before the current position once [consumed] has been
    read. *)
Definition last_of (prev : option N) (consumed : str) : option N :=
  match rev consumed with
  | c :: _ => Some c
  | [] => prev
  end.

Section Program.

(** Lower-case mapping of the non-ASCII, non-space code point at index [i]
    of a text (the mapping of [str.lower] may yield several code points and
    may depend on the neighbours). *)
Variable unicode_lower : str -> nat -> str.
(** [str.isalnum] on a non-ASCII code point. *)
Variable unicode_alnum : N -> bool.
(** [str.isdigit] on a non-ASCII code point. *)
Variable unicode_digit : N -> bool.

Definition lower_char (whole : str) (i : nat) (c : N) : str :=
  if c <? 128 then [if (65 <=? c) && (c <=? 90) then c + 32 else c]
  else if isspace c then [c]
  else unicode_lower whole i.

Fixpoint lower_from (whole : str) (i : nat) (s : str) : str :=
  match s with
  | [] => []
  | c :: r => lower_char whole i c ++ lower_from whole (S i) r
  end.

(** [s.lower()] *)
Definition lower (s : str) : str := lower_from s O s.

Definition isdigit_char (c : N) : bool :=
  if c <? 128 then (48 <=? c) && (c <=? 57) else unicode_digit c.

(** [s.isdigit()]: at least one character and all of them digits. *)
Definition isdigit (s : str) : bool := truthy s && forallb isdigit_char s.

Definition isalnum_char (c : N) : bool :=
  if c <? 128
  then ((48 <=? c) && (c <=? 57)) || ((65 <=? c) && (c <=? 90))
       || ((97 <=? c) && (c <=? 122))
  else unicode_alnum c.

(** [\w] of [re] on [str] patterns. *)
Definition is_word (c : N) : bool := (c =? 95) || isalnum_char c.

Definition word_at (o : option N) : bool :=
  match o with Some c => is_word c | None => false end.

Fixpoint match_here (p : list atom) (prev : option N) (s : str) : option nat :=
  match p with
  | [] => Some O
  | Boundary :: p' =>
      if xorb (word_at prev) (word_at (hd_error s))
      then match_here p' prev s else None
  | Literal c :: p' =>
      match s with
      | x :: r => if x =? c then option_map S (match_here p' (Some x) r)
                  else None
      | [] => None
      end
  | Group alts :: p' =>
      first_alt alts (fun w =>
        if starts_with w s
        then option_map (Nat.add (length w))
               (match_here p' (last_of prev w) (skipn (length w) s))
        else None)
  | Class cls min :: p' =>
      greedy min (run cls s) (fun k =>
        option_map (Nat.add k)
          (match_here p' (last_of prev (firstn k s)) (skipn k s)))
  end.

(** [re.search(p, s)] as a truth value: the first position, from the left,
    at which the pattern matches. *)
Fixpoint search_from (p : list atom) (prev : option N) (s : str) : bool :=
  match match_here p prev s with
  | Some _ => true
  | None => match s with
            | [] => false
            | c :: r => search_from p (Some c) r
            end
  end.

Definition re_search (p : list atom) (s : str) : bool := search_from p None s.

(** [re.findall(p, s)] for a pattern without groups and without empty
    matches: the matched texts from left to right, the scan resuming at
    the end of each match.  [skip] counts the characters of the current
    match still to be passed over. *)
Fixpoint findall_from (p : list atom) (prev : option N) (s : str)
    (skip : nat) : list str :=
  match s with
  | [] => []
  | c :: r =>
      match skip with
      | S k => findall_from p (Some c) r k
      | O => match match_here p prev s with
             | Some (S n) => firstn (S n) s :: findall_from p (Some c) r n
             | _ => findall_from p (Some c) r O
             end
      end
  end.

Definition re_findall (p : list atom) (s : str) : list str :=
  findall_from p None s O.

(** ** config.py *)

Definition ACADEMIC_KEYWORDS : list str :=
  [ text "university"; text "college"; text "school"; text "institute";
    text "faculty"; text "department"; text "hospital"; text "clinic";
    text "medical center"; text "research center"; text "academic";
    text "campus"; text "laboratory"; text "lab"; text "centre";
    text "institut"; text "universidad";
    (* the last keyword ends with U+221A U+00A9 in the source file *)
    text "universit" ++ [8730; 169] ].

Definition PHARMA_BIOTECH_KEYWORDS : list str :=
  [ text "pharmaceutical"; text "pharma"; text "biotech";
    text "biotechnology"; text "drug"; text "therapeutics";
    text "medicines"; text "biopharmaceutical"; text "inc"; text "ltd";
    text "llc"; text "corp"; text "corporation"; text "company";
    text "ag"; text "gmbh"; text "sa"; text "plc" ].

(** ** utils.py *)

Definition corporate_indicators : list str :=
  [ text "inc"; text "ltd"; text "llc"; text "corp"; text "corporation";
    text "company"; text "ag"; text "gmbh"; text "sa"; text "plc" ].

Definition corporate_patterns : list (list atom) :=
  [ [Boundary; Group [text "inc"; text "ltd"; text "llc"; text "corp";
                      text "corporation"; text "company"]; Boundary];
    [Boundary; Group [text "ag"; text "gmbh"; text "sa"; text "plc"];
     Boundary];
    [Boundary; Group [text "pharmaceutical"; text "pharma"; text "biotech";
                      text "biotechnology"]; Boundary];
    [Boundary; Group [text "drug"; text "therapeutics"; text "medicines"];
     Boundary] ].

Definition has_keyword (keywords : list str) (affiliation_lower : str) : bool :=
  existsb (fun keyword => contains keyword affiliation_lower) keywords.

Definition is_non_academic_affiliation (affiliation : str) : bool :=
  if negb (truthy affiliation) || negb (truthy (strip affiliation)) then false
  else
    let affiliation_lower := lower affiliation in
    let has_academic_keywords := has_keyword ACADEMIC_KEYWORDS affiliation_lower in
    if has_academic_keywords then
      let has_pharma_keywords :=
        has_keyword PHARMA_BIOTECH_KEYWORDS affiliation_lower in
      if has_pharma_keywords then
        let has_corporate :=
          existsb (fun indicator => contains indicator affiliation_lower)
            corporate_indicators in
        has_corporate
      else false
    else
      let has_pharma_keywords :=
        has_keyword PHARMA_BIOTECH_KEYWORDS affiliation_lower in
      let has_corporate_pattern :=
        existsb (fun pattern => re_search pattern affiliation_lower)
          corporate_patterns in
      has_pharma_keywords || has_corporate_pattern.

(** [[A-Za-z0-9._%+-]] *)
Definition email_local (c : N) : bool :=
  ((65 <=? c) && (c <=? 90)) || ((97 <=? c) && (c <=? 122))
  || ((48 <=? c) && (c <=? 57))
  || (c =? 46) || (c =? 95) || (c =? 37) || (c =? 43) || (c =? 45).

(** [[A-Za-z0-9.-]] *)
Definition email_domain (c : N) : bool :=
  ((65 <=? c) && (c <=? 90)) || ((97 <=? c) && (c <=? 122))
  || ((48 <=? c) && (c <=? 57)) || (c =? 46) || (c =? 45).

(** [[A-Z|a-z]]: the bar is a member of the class. *)
Definition email_tld (c : N) : bool :=
  ((65 <=? c) && (c <=? 90)) || (c =? 124) || ((97 <=? c) && (c <=? 122)).

Definition email_pattern : list atom :=
  [ Boundary; Class email_local 1; Literal 64; Class email_domain 1;
    Literal 46; Class email_tld 2; Boundary ].

(** The loop that keeps the first occurrence of each email. *)
Definition unique (emails : list str) : list str :=
  fold_left append_new emails [].

(** [extract_emails(text)]; [None] is Python's [None]. *)
Definition extract_emails (t : option str) : list str :=
  match t with
  | None => []
  | Some s =>
      if negb (truthy s) then []
      else unique (re_findall email_pattern s)
  end.

(** ** xml.etree.ElementTree

    An element has a tag, an optional text and its children in document
    order.  The paths of the program are sequences of two kinds of steps,
    [tag] (children of that tag) and [//tag] (descendants of that tag),
    after the leading [.]. *)

#[local] Set Warnings "-register-all".
Inductive Element := Elem (tag : str) (txt : option str) (children : list Element).

Definition tag_of (e : Element) : str := match e with Elem t _ _ => t end.
Definition text_of (e : Element) : option str := match e with Elem _ t _ => t end.
Definition children_of (e : Element) : list Element :=
  match e with Elem _ _ cs => cs end.

(** [e.iter()]: the element and its descendants in document order. *)
Fixpoint iter (e : Element) : list Element :=
  match e with Elem _ _ cs => e :: flat_map iter cs end.

Inductive step := Child (tag : str) | Descendant (tag : str).

Definition has_tag (tag : str) (e : Element) : bool := str_eqb (tag_of e) tag.

Definition select (st : step) (result : list Element) : list Element :=
  match st with
  | Child tag =>
      flat_map (fun elem => filter (has_tag tag) (children_of elem)) result
  | Descendant tag =>
      flat_map (fun elem => filter (has_tag tag) (flat_map iter (children_of elem)))
        result
  end.

(** [e.findall(path)] *)
Definition findall (e : Element) (path : list step) : list Element :=
  fold_left (fun result st => select st result) path [e].

(** [e.find(path)] *)
Definition find (e : Element) (path : list step) : option Element :=
  hd_error (findall e path).

(** [e.findtext(path)] *)
Definition findtext (e : Element) (path : list step) : option str :=
  match find e path with
  | Some found => Some (or_empty (text_of found))
  | None => None
  end.

(** ** parser.py *)

(** The body of [extract_text] after the lookup; a lookup that raises is
    caught and gives [None]. *)
Definition extract_text_from (lookup : res (option Element)) : option str :=
  match lookup with
  | Ok (Some found) =>
      match text_of found with
      | Some t => if truthy t then Some (strip t) else None
      | None => None
      end
  | Ok None => None
  | Raise _ => None
  end.

Definition extract_text (element : Element) (xpath : list step) : option str :=
  extract_text_from (Ok (find element xpath)).

Definition month_map : list (str * str) :=
  [ (text "Jan", text "1"); (text "Feb", text "2"); (text "Mar", text "3");
    (text "Apr", text "4"); (text "May", text "5"); (text "Jun", text "6");
    (text "Jul", text "7"); (text "Aug", text "8"); (text "Sep", text "9");
    (text "Oct", text "10"); (text "Nov", text "11"); (text "Dec", text "12") ].

(** [d.get(key, default)] *)
Fixpoint dict_get (d : list (str * str)) (key default : str) : str :=
  match d with
  | [] => default
  | (k, v) :: rest => if str_eqb k key then v else dict_get rest key default
  end.

Definition convert_month_name_to_number (month_name : str) : str :=
  dict_get month_map (firstn 3 month_name) month_name.

(** [s.zfill(width)] *)
Definition zfill (width : nat) (s : str) : str :=
  if (width <=? length s)%nat then s
  else
    let fill := repeat 48 (width - length s) in
    match s with
    | c :: r => if (c =? 43) || (c =? 45) then c :: fill ++ r else fill ++ s
    | [] => fill
    end.

(** The part of [extract_publication_date] that builds the date from the
    three fields, each already defaulted to the empty text. *)
Definition date_of_fields (year month day : str) : str :=
  let date_parts := [] in
  let date_parts := if truthy year then date_parts ++ [year] else date_parts in
  let date_parts :=
    if truthy month then
      let month_num := convert_month_name_to_number month in
      date_parts ++ [if isdigit month_num then zfill 2 month_num else month]
    else date_parts in
  let date_parts :=
    if truthy day then
      date_parts ++ [if isdigit day then zfill 2 day else day]
    else date_parts in
  join (text "-") date_parts.

Definition extract_publication_date (article : Element) : str :=
  match find article [Descendant (text "PubDate")] with
  | None => []
  | Some pubdate_elem =>
      let year := or_empty (findtext pubdate_elem [Child (text "Year")]) in
      let month := or_empty (findtext pubdate_elem [Child (text "Month")]) in
      let day := or_empty (findtext pubdate_elem [Child (text "Day")]) in
      date_of_fields year month day
  end.

Definition extract_emails_from_elements (article : Element) (xpath : list step)
  : list str :=
  flat_map (fun element =>
              if truthy (or_empty (text_of element))
              then extract_emails (text_of element) else [])
    (findall article xpath).

(** The full name of an author node. *)
Definition full_name_of (author : Element) : str :=
  let last_name := or_empty (extract_text author [Child (text "LastName")]) in
  let fore_name := or_empty (extract_text author [Child (text "ForeName")]) in
  let initials := or_empty (extract_text author [Child (text "Initials")]) in
  let name_parts := [if truthy fore_name then fore_name else initials; last_name] in
  strip (join (text " ") (filter truthy name_parts)).

(** The affiliation texts collected for an author node. *)
Definition author_affiliations_of (author : Element) : list str :=
  flat_map (fun aff_info =>
              match extract_text aff_info [Child (text "Affiliation")] with
              | Some aff_text => if truthy aff_text then [aff_text] else []
              | None => []
              end)
    (findall author [Descendant (text "AffiliationInfo")]).

(** The three lists the author loop builds. *)
Record authors_state := {
  non_academic_authors : list str;
  company_affiliations : list str;
  emails : list str
}.

(** One iteration of the loop over the author nodes. *)
Definition author_step (st : authors_state) (author : Element) : authors_state :=
  let full_name := full_name_of author in
  let author_affiliations := author_affiliations_of author in
  let emails' :=
    emails st ++ flat_map (fun aff_text => extract_emails (Some aff_text))
                   author_affiliations in
  let has_non_academic :=
    existsb is_non_academic_affiliation author_affiliations in
  if has_non_academic && truthy full_name then
    {| non_academic_authors := append_new (non_academic_authors st) full_name;
       company_affiliations :=
         fold_left (fun acc aff =>
                      if is_non_academic_affiliation aff && negb (mem aff acc)
                      then acc ++ [aff] else acc)
           author_affiliations (company_affiliations st);
       emails := emails' |}
  else
    {| non_academic_authors := non_academic_authors st;
       company_affiliations := company_affiliations st;
       emails := emails' |}.

Definition process_authors (article : Element) : authors_state :=
  fold_left author_step (findall article [Descendant (text "Author")])
    {| non_academic_authors := []; company_affiliations := []; emails := [] |}.

Definition corresponding_emails_of (article : Element) : list str :=
  extract_emails_from_elements article
    [Descendant (text "AuthorList"); Descendant (text "Author");
     Descendant (text "Email")]
  ++ extract_emails_from_elements article
       [Descendant (text "DataBankList"); Descendant (text "DataBank");
        Descendant (text "Name")].

(** A record is a dictionary from column names to texts, kept in insertion
    order. *)
Definition record := list (str * str).

Fixpoint field (key : str) (r : record) : option str :=
  match r with
  | [] => None
  | (k, v) :: rest => if str_eqb k key then Some v else field key rest
  end.

(** [list(set(xs))]: the iteration order of a set of texts is not
    determined by the program. *)
Variable set_order : list str -> list str.

Definition all_emails_of (article : Element) : list str :=
  set_order (emails (process_authors article) ++ corresponding_emails_of article).

Definition parse_single_article (article : Element) : record :=
  let pmid := or_empty (extract_text article [Descendant (text "PMID")]) in
  let title := or_empty (extract_text article [Descendant (text "ArticleTitle")]) in
  let pubdate := extract_publication_date article in
  let st := process_authors article in
  let all_emails := all_emails_of article in
  [ (text "PubmedID", pmid);
    (text "Title", title);
    (text "Publication Date", pubdate);
    (text "Non-academic Author(s)", join (text "; ") (non_academic_authors st));
    (text "Company Affiliation(s)", join (text "; ") (company_affiliations st));
    (text "Corresponding Author Email", join (text "; ") all_emails) ].

(** Truth value of an optional dictionary. *)
Definition record_truthy (r : option record) : bool :=
  match r with
  | Some (_ :: _) => true
  | _ => false
  end.

(** The loop of [parse_pubmed_records] over the article nodes, for an
    extraction function that may raise. *)
Fixpoint process_articles (extract : Element -> res (option record))
    (articles : list Element) (results : list record) : list record :=
  match articles with
  | [] => results
  | article :: rest =>
      match extract article with
      | Ok r =>
          process_articles extract rest
            (if record_truthy r
             then results ++ [match r with Some d => d | None => [] end]
             else results)
      | Raise _ => process_articles extract rest results
      end
  end.

(** [ET.fromstring]: the root element, or an exception. *)
Variable fromstring : str -> res Element.

Definition parse_pubmed_records_with (extract : Element -> res (option record))
    (xml_data : str) : res (list record) :=
  if negb (truthy (strip xml_data)) then Ok []
  else
    match fromstring xml_data with
    | Raise ParseError => Ok []
    | Raise e => Raise e
    | Ok root =>
        let articles := findall root [Descendant (text "PubmedArticle")] in
        Ok (process_articles extract articles [])
    end.

Definition parse_pubmed_records (xml_data : str) : res (list record) :=
  parse_pubmed_records_with (fun article => Ok (Some (parse_single_article article)))
    xml_data.

End Program.

(** * Notions of the specification

    The definitions with which the properties are stated. *)

(** A keyword that starts with a character that is not white space. *)
Definition nonspace_head (k : str) : bool :=
  match k with c :: _ => negb (isspace c) | [] => false end.

(** First-seen order in the words of the specification: the elements in
    their order of appearance, each one dropped when it was seen before. *)
Fixpoint first_seen (seen l : list str) : list str :=
  match l with
  | [] => []
  | x :: r => if mem x seen then first_seen seen r
              else x :: first_seen (seen ++ [x]) r
  end.

(** The normaliser in the words of the specification; a field is present
    when it is given and not empty. *)
Definition present (field : option str) : list str :=
  match field with
  | Some (c :: r) => [c :: r]
  | _ => []
  end.

Definition pad2 (s : str) : str := repeat 48 (2 - length s) ++ s.

Fixpoint month_number (table : list (str * str)) (prefix : str) : option str :=
  match table with
  | [] => None
  | (name, number) :: rest =>
      if str_eqb name prefix then Some number else month_number rest prefix
  end.

(** A text without white space at either end. *)
Definition no_surrounding_space (v : str) : Prop :=
  (forall c r, v = c :: r -> isspace c = false)
  /\ (forall c r, v = r ++ [c] -> isspace c = false).

(** The records of the articles whose extraction returned a non-empty
    dictionary, in the order of the articles. *)
Definition extracted (extract : Element -> res (option record))
    (articles : list Element) : list record :=
  flat_map (fun article =>
              match extract article with
              | Ok (Some (kv :: r)) => [kv :: r]
              | _ => []
              end) articles.

(** The author nodes of an article, in document order. *)
Definition authors_of (article : Element) : list Element :=
  findall article [Descendant (text "Author")].

(** The text of the first element found, white space removed at both ends;
    empty when nothing is found or the element has no text. *)
Definition first_text (article : Element) (path : list step) : str :=
  match find article path with
  | Some found => match text_of found with
                  | Some t => strip t
                  | None => []
                  end
  | None => []
  end.

(** The email fields of the authors and the names of the data banks. *)
Definition author_email_path : list step :=
  [Descendant (text "AuthorList"); Descendant (text "Author");
   Descendant (text "Email")].
Definition databank_name_path : list step :=
  [Descendant (text "DataBankList"); Descendant (text "DataBank");
   Descendant (text "Name")].

(** [set_order] lists the members of the set, each one once. *)
Definition lists_the_set (order : list str -> list str) : Prop :=
  forall xs, NoDup (order xs) /\ forall x, In x (order xs) <-> In x xs.

(** The record of an article node in which nothing is found. *)
Definition empty_record : record :=
  [ (text "PubmedID", []); (text "Title", []); (text "Publication Date", []);
    (text "Non-academic Author(s)", []); (text "Company Affiliation(s)", []);
    (text "Corresponding Author Email", []) ].


Section Notions.

Variable unicode_lower : str -> nat -> str.
Variable unicode_alnum : N -> bool.
Variable unicode_digit : N -> bool.

(** The word-boundary search for a corporate-suffix token. *)
Definition has_suffix_word (affiliation_lower : str) : bool :=
  re_search unicode_alnum [Boundary; Group corporate_indicators; Boundary] affiliation_lower.

Definition normalize_month (month : str) : str :=
  match month_number month_map (firstn 3 month) with
  | Some number => pad2 number
  | None => if isdigit unicode_digit month then pad2 month else month
  end.

Definition normalize_day (day : str) : str :=
  if isdigit unicode_digit day then pad2 day else day.

Definition normalizeDate (year month day : option str) : str :=
  join (text "-")
    (present year ++ map normalize_month (present month)
     ++ map normalize_day (present day)).

(** ANY-match: one of the author's affiliations is classified
    non-academic. *)
Definition has_non_academic (author : Element) : bool :=
  existsb (is_non_academic_affiliation unicode_lower unicode_alnum) (author_affiliations_of author).

(** The list of names as C2 is written: its members are exactly the full
    names of the authors with a non-academic affiliation, the empty name
    included. *)
Definition names_exactly_of_non_academic_authors (article : Element) : Prop :=
  forall name,
    In name (non_academic_authors (process_authors unicode_lower unicode_alnum article))
    <-> exists author, In author (authors_of article)
                       /\ full_name_of author = name
                       /\ has_non_academic author = true.

End Notions.

(** ** Sample parameters and documents *)

(** Sample values of the Unicode parameters: a caseless, classless reading
    of the code points outside ASCII. *)
Definition keep_case (whole : str) (i : nat) : str := [nth i whole 0].
Definition no_class (c : N) : bool := false.

(** The set listed in the order in which its members were added. *)
Definition first_seen_order (xs : list str) : list str := first_seen [] xs.

Definition sample_document : str :=
  text "<PubmedArticleSet><PubmedArticle/></PubmedArticleSet>".

Definition sample_root : Element :=
  Elem (text "PubmedArticleSet") None [Elem (text "PubmedArticle") None []].

(** A parser that knows one document. *)
Definition sample_fromstring (s : str) : res Element :=
  if str_eqb s sample_document then Ok sample_root else Raise ParseError.

(** An author with a company affiliation that carries an email, an academic
    affiliation and an email field, and a data bank. *)
Definition sample_article : Element :=
  Elem (text "PubmedArticle") None
    [ Elem (text "AuthorList") None
        [ Elem (text "Author") None
            [ Elem (text "LastName") (Some (text "Doe")) [];
              Elem (text "ForeName") (Some (text "John")) [];
              Elem (text "AffiliationInfo") None
                [ Elem (text "Affiliation")
                    (Some (text "Pfizer Inc., New York. john.doe@pfizer.com")) [] ];
              Elem (text "AffiliationInfo") None
                [ Elem (text "Affiliation")
                    (Some (text "Harvard Medical School, Boston")) [] ];
              Elem (text "Email") (Some (text " john.doe@pfizer.com ")) [] ] ];
      Elem (text "DataBankList") None
        [ Elem (text "DataBank") None
            [ Elem (text "Name") (Some (text "data@bank.org")) [] ] ] ].

(** A collective author: no name fields, one company affiliation. *)
Definition collective_author : Element :=
  Elem (text "Author") None
    [ Elem (text "CollectiveName") (Some (text "Pfizer Study Group")) [];
      Elem (text "AffiliationInfo") None
        [ Elem (text "Affiliation") (Some (text "Pfizer Inc.")) [] ] ].

Definition collective_author_article : Element :=
  Elem (text "PubmedArticle") None
    [ Elem (text "AuthorList") None [collective_author] ].

(** ** cli.py *)

(** The comprehension of [main] that keeps the records with a non-empty
    Non-academic Author(s) value; [record.get] gives [None] on a missing
    key. *)
Definition filtered_data (parsed_data : list record) : list record :=
  filter (fun record =>
            truthy (or_empty (field (text "Non-academic Author(s)") record)))
    parsed_data.

(** ** Further notions *)

Definition is_ascii (c : N) : bool := c <? 128.

(** ASCII case folding. *)
Definition ascii_lower (c : N) : N :=
  if (65 <=? c) && (c <=? 90) then c + 32 else c.

(** The shape [local@domain.tld] of the email pattern. *)
Definition email_shape (e : str) : Prop :=
  exists local domain tld,
    e = local ++ 64 :: domain ++ 46 :: tld
    /\ local <> [] /\ forallb email_local local = true
    /\ domain <> [] /\ forallb email_domain domain = true
    /\ (2 <= length tld)%nat /\ forallb email_tld tld = true.

(** The full name built from the three name fields, the given name taken
    before the initials. *)
Definition name_of_fields (fore_name initials last_name : str) : str :=
  let given := if truthy fore_name then fore_name else initials in
  match given, last_name with
  | [], _ => last_name
  | _, [] => given
  | _, _ => given ++ text " " ++ last_name
  end.

(** An author that the loop lists: a non-academic affiliation and a
    non-empty full name. *)
Definition listed_author (unicode_lower : str -> nat -> str)
    (unicode_alnum : N -> bool) (author : Element) : bool :=
  has_non_academic unicode_lower unicode_alnum author
  && truthy (full_name_of author).

(** The affiliations of an author that are classified non-academic. *)
Definition company_affiliations_of (unicode_lower : str -> nat -> str)
    (unicode_alnum : N -> bool) (author : Element) : list str :=
  filter (is_non_academic_affiliation unicode_lower unicode_alnum)
    (author_affiliations_of author).

(** The column names of a record. *)
Definition column_names : list str :=
  [ text "PubmedID"; text "Title"; text "Publication Date";
    text "Non-academic Author(s)"; text "Company Affiliation(s)";
    text "Corresponding Author Email" ].

(** A document of two articles, the sample article and an article without
    content, with its tree. *)
Definition two_articles_document : str :=
  text "<PubmedArticleSet><PubmedArticle><AuthorList><Author><LastName>Doe</LastName><ForeName>John</ForeName><AffiliationInfo><Affiliation>Pfizer Inc., New York. john.doe@pfizer.com</Affiliation></AffiliationInfo><AffiliationInfo><Affiliation>Harvard Medical School, Boston</Affiliation></AffiliationInfo><Email> john.doe@pfizer.com </Email></Author></AuthorList><DataBankList><DataBank><Name>data@bank.org</Name></DataBank></DataBankList></PubmedArticle><PubmedArticle/></PubmedArticleSet>".

Definition two_articles_root : Element :=
  Elem (text "PubmedArticleSet") None
    [sample_article; Elem (text "PubmedArticle") None []].

Definition two_articles_fromstring (s : str) : res Element :=
  if str_eqb s two_articles_document then Ok two_articles_root
  else Raise ParseError.





(** An article whose only affiliation is that of an investigator. *)
Definition investigator_affiliation : Element :=
  Elem (text "Affiliation") (Some (text "Pfizer Inc. jane.roe@pfizer.com")) [].

Definition investigator_article : Element :=
  Elem (text "PubmedArticle") None
    [ Elem (text "InvestigatorList") None
        [ Elem (text "Investigator") None
            [ Elem (text "LastName") (Some (text "Roe")) [];
              Elem (text "ForeName") (Some (text "Jane")) [];
              Elem (text "AffiliationInfo") None [investigator_affiliation] ] ] ].

(** C8 as it is written: the emails of the record are those of every email
    field of an author, of every name of a data bank and of every
    affiliation text, wherever they stand under the article. *)
Definition emails_of_every_field_anywhere (unicode_lower : str -> nat -> str)
    (unicode_alnum : N -> bool) (set_order : list str -> list str)
    (article : Element) : Prop :=
  forall e,
    In e (all_emails_of unicode_lower unicode_alnum set_order article)
    <-> exists element t,
          (In element (findall article
                         [Descendant (text "Author"); Descendant (text "Email")])
           \/ In element (findall article
                            [Descendant (text "DataBank");
                             Descendant (text "Name")])
           \/ In element (findall article [Descendant (text "Affiliation")]))
          /\ text_of element = Some t
          /\ In e (extract_emails unicode_alnum (Some t)).

(** * Properties *)

(** ** Texts and white space *)

Ltac bool_to_prop H :=
  repeat rewrite ?orb_true_iff, ?andb_true_iff, ?N.leb_le, ?N.eqb_eq,
    ?N.ltb_lt in H.

Lemma str_eqb_eq (a b : str) : str_eqb a b = true <-> a = b.
Proof.
  unfold str_eqb. destruct (list_eq_dec N.eq_dec a b); split; congruence.
Qed.

Lemma mem_In (x : str) (l : list str) : mem x l = true <-> In x l.
Proof.
  unfold mem. rewrite existsb_exists. split.
  - intros [y [Hy E]]. apply str_eqb_eq in E. now subst.
  - intros H. exists x. split; [assumption | now apply str_eqb_eq].
Qed.

Lemma truthy_false (s : str) : truthy s = false <-> s = [].
Proof. destruct s; simpl; split; congruence. Qed.

Lemma lstrip_nil (s : str) : lstrip s = [] <-> forallb isspace s = true.
Proof.
  induction s as [|c r IH]; simpl.
  - tauto.
  - destruct (isspace c); simpl; [exact IH | split; discriminate].
Qed.

Lemma lstrip_head (s : str) (c : N) (r : str) :
  lstrip s = c :: r -> isspace c = false.
Proof.
  induction s as [|a s IH]; simpl; [discriminate|].
  destruct (isspace a) eqn:E; [exact IH|].
  intros H. injection H as -> _. exact E.
Qed.

Lemma forallb_rev (f : N -> bool) (s : str) :
  forallb f (rev s) = forallb f s.
Proof.
  apply eq_true_iff_eq. rewrite !forallb_forall.
  split; intros H x Hx; apply H; [now apply in_rev in Hx | now apply in_rev].
Qed.

Lemma strip_nil (s : str) : strip s = [] <-> forallb isspace s = true.
Proof.
  unfold strip, rstrip. split.
  - intros H. apply (f_equal (@rev N)) in H. rewrite rev_involutive in H.
    simpl in H. apply lstrip_nil in H. rewrite forallb_rev in H.
    destruct (lstrip s) as [|c r] eqn:E.
    + now apply lstrip_nil.
    + apply lstrip_head in E. simpl in H. rewrite E in H. discriminate.
  - intros H. apply lstrip_nil in H. now rewrite H.
Qed.

Lemma contains_blank (k s : str) :
  nonspace_head k = true -> forallb isspace s = true -> contains k s = false.
Proof.
  destruct k as [|c k]; simpl; [discriminate|]. intros Hc.
  induction s as [|a r IH]; simpl; [reflexivity|].
  intros H. apply andb_true_iff in H as [Ha Hr].
  rewrite (IH Hr), orb_false_r.
  destruct (N.eqb_spec c a) as [->|]; [|reflexivity].
  rewrite Ha in Hc. discriminate.
Qed.

Lemma has_keyword_blank (kws : list str) (s : str) :
  forallb nonspace_head kws = true -> forallb isspace s = true ->
  has_keyword kws s = false.
Proof.
  intros Hk Hs. unfold has_keyword. apply not_true_is_false. intros H.
  apply existsb_exists in H as [k [Hin Hc]].
  rewrite forallb_forall in Hk.
  rewrite (contains_blank k s (Hk k Hin) Hs) in Hc. discriminate.
Qed.

Lemma first_alt_some (alts : list str) (cont : str -> option nat) (n : nat) :
  first_alt alts cont = Some n -> exists w, In w alts /\ cont w = Some n.
Proof.
  induction alts as [|w rest IH]; simpl; [discriminate|].
  destruct (cont w) eqn:E.
  - intros H. injection H as <-. exists w. auto.
  - intros H. destruct (IH H) as [w' [Hin Hw]]. exists w'. auto.
Qed.

Section Classifier.

Variable unicode_lower : str -> nat -> str.
Variable unicode_alnum : N -> bool.

Local Abbreviation suffix_word := (has_suffix_word unicode_alnum).
Local Abbreviation lowered := (lower unicode_lower).
Local Abbreviation classify := (is_non_academic_affiliation unicode_lower unicode_alnum).
Local Abbreviation search := (re_search unicode_alnum).
Local Abbreviation search_at := (search_from unicode_alnum).

Lemma lower_from_blank (s whole : str) (i : nat) :
  forallb isspace s = true -> lower_from unicode_lower whole i s = s.
Proof.
  revert i. induction s as [|c r IH]; simpl; intros i H; [reflexivity|].
  apply andb_true_iff in H as [Hc Hr]. rewrite (IH _ Hr).
  unfold lower_char. rewrite Hc.
  destruct (c <? 128); [|reflexivity].
  replace ((65 <=? c) && (c <=? 90)) with false; [reflexivity|].
  symmetry. apply not_true_is_false. intros U.
  unfold isspace in Hc. bool_to_prop Hc. bool_to_prop U. lia.
Qed.

Lemma lower_blank (s : str) : forallb isspace s = true -> lowered s = s.
Proof. apply lower_from_blank. Qed.

(** A word-boundary search for one of several literal words succeeds only
    where one of the words occurs as a substring. *)
Lemma search_group_contains (alts : list str) (s : str) (prev : option N) :
  search_at [Boundary; Group alts; Boundary] prev s = true ->
  exists w, In w alts /\ contains w s = true.
Proof.
  revert prev. induction s as [|c r IH]; intros prev.
  - simpl. destruct (xorb _ _); [|discriminate].
    destruct (first_alt alts _) eqn:E; [|discriminate]. intros _.
    apply first_alt_some in E as [w [Hin Hw]]. exists w. split; [assumption|].
    destruct w; simpl in *; [reflexivity | discriminate].
  - cbn [search_from].
    destruct (match_here unicode_alnum _ prev (c :: r)) eqn:E.
    + intros _. cbn [match_here] in E.
      destruct (xorb _ _); [|discriminate].
      apply first_alt_some in E as [w [Hin Hw]]. exists w. split; [assumption|].
      destruct (starts_with w (c :: r)) eqn:Hs; [|discriminate].
      cbn [contains]. now rewrite Hs.
    + intros H. destruct (IH _ H) as [w [Hin Hw]]. exists w. split; [assumption|].
      cbn [contains]. rewrite Hw. apply orb_true_r.
Qed.

Lemma search_group_blank (alts : list str) (s : str) :
  forallb nonspace_head alts = true -> forallb isspace s = true ->
  search [Boundary; Group alts; Boundary] s = false.
Proof.
  intros Ha Hs. apply not_true_is_false. intros H.
  apply search_group_contains in H as [w [Hin Hw]].
  rewrite forallb_forall in Ha.
  rewrite (contains_blank w s (Ha w Hin) Hs) in Hw. discriminate.
Qed.

Lemma corporate_patterns_blank (s : str) :
  forallb isspace s = true ->
  existsb (fun pattern => search pattern s) corporate_patterns = false.
Proof.
  intros Hs. unfold corporate_patterns. cbn [existsb].
  rewrite !search_group_blank by (assumption || reflexivity). reflexivity.
Qed.

Lemma has_keyword_In (kws : list str) (w s : str) :
  In w kws -> contains w s = true -> has_keyword kws s = true.
Proof.
  intros Hin Hc. unfold has_keyword. apply existsb_exists. eauto.
Qed.

Lemma suffix_word_is_pharma_keyword (s : str) :
  suffix_word s = true -> has_keyword PHARMA_BIOTECH_KEYWORDS s = true.
Proof.
  intros H. apply search_group_contains in H as [w [Hin Hw]].
  apply has_keyword_In with w; [|assumption].
  unfold corporate_indicators in Hin. unfold PHARMA_BIOTECH_KEYWORDS.
  simpl in Hin |- *. intuition.
Qed.

(** C5: the classifier answers false on an empty or white-space-only
    affiliation, and on an affiliation that contains an academic term and
    no pharma/corporate term. *)
Theorem classify_false_blank_or_academic_only (affiliation : str) :
  forallb isspace affiliation = true
  \/ (has_keyword ACADEMIC_KEYWORDS (lowered affiliation) = true
      /\ has_keyword PHARMA_BIOTECH_KEYWORDS (lowered affiliation) = false) ->
  classify affiliation = false.
Proof.
  unfold is_non_academic_affiliation. intros [Hb | [Ha Hp]].
  - apply strip_nil in Hb. rewrite Hb. simpl. now rewrite orb_true_r.
  - destruct (negb (truthy affiliation) || negb (truthy (strip affiliation)));
      [reflexivity|].
    cbv zeta. now rewrite Ha, Hp.
Qed.

(** C4: without an academic term the classifier answers true exactly when
    a pharma/corporate term occurs as a substring or one of the four
    word-boundary patterns matches; so a pharma term or a standalone
    corporate-suffix token is enough for true. *)
Theorem classify_without_academic_term (affiliation : str) :
  has_keyword ACADEMIC_KEYWORDS (lowered affiliation) = false ->
  classify affiliation
  = has_keyword PHARMA_BIOTECH_KEYWORDS (lowered affiliation)
    || existsb (fun pattern => search pattern (lowered affiliation))
         corporate_patterns
  /\ (has_keyword PHARMA_BIOTECH_KEYWORDS (lowered affiliation) = true
      \/ suffix_word (lowered affiliation) = true ->
      classify affiliation = true).
Proof.
  intros Ha.
  assert (E : classify affiliation
              = has_keyword PHARMA_BIOTECH_KEYWORDS (lowered affiliation)
                || existsb (fun pattern => search pattern (lowered affiliation))
                     corporate_patterns).
  { unfold is_non_academic_affiliation.
    destruct (truthy (strip affiliation)) eqn:Hs.
    - destruct affiliation as [|c r]; [discriminate Hs|].
      cbn [truthy negb orb]. cbv zeta. now rewrite Ha.
    - apply truthy_false, strip_nil in Hs.
      rewrite orb_true_r. rewrite (lower_blank _ Hs).
      rewrite has_keyword_blank by (assumption || reflexivity).
      now rewrite corporate_patterns_blank. }
  split; [exact E|].
  intros [Hp | Hw]; rewrite E.
  - now rewrite Hp.
  - now rewrite (suffix_word_is_pharma_keyword _ Hw).
Qed.

(** With an academic and a pharma/corporate term the answer is the plain
    substring test on the corporate indicators. *)
Lemma classify_with_both_terms (affiliation : str) :
  truthy (strip affiliation) = true ->
  has_keyword ACADEMIC_KEYWORDS (lowered affiliation) = true ->
  has_keyword PHARMA_BIOTECH_KEYWORDS (lowered affiliation) = true ->
  classify affiliation
  = existsb (fun indicator => contains indicator (lowered affiliation))
      corporate_indicators.
Proof.
  intros Hs Ha Hp. unfold is_non_academic_affiliation.
  destruct affiliation as [|c r]; [discriminate Hs|].
  rewrite Hs. cbn [truthy negb orb]. cbv zeta. now rewrite Ha, Hp.
Qed.

(** C1: on "Massachusetts Institute of Technology" the classifier finds an
    academic term ("institute"), a pharma/corporate term and a corporate
    indicator (both "sa", inside "massachusetts") and answers true, although
    no corporate-suffix token stands there as a word of its own. *)
Theorem classify_massachusetts_institute :
  let affiliation := text "Massachusetts Institute of Technology" in
  has_keyword ACADEMIC_KEYWORDS (lowered affiliation) = true
  /\ has_keyword PHARMA_BIOTECH_KEYWORDS (lowered affiliation) = true
  /\ suffix_word (lowered affiliation) = false
  /\ classify affiliation = true.
Proof. vm_compute. repeat split. Qed.

End Classifier.

(** Harvard University: an academic term and no pharma/corporate term. *)
Lemma classify_false_witness :
  (forallb isspace (text "Harvard University") = true
   \/ (has_keyword ACADEMIC_KEYWORDS (lower keep_case (text "Harvard University")) = true
       /\ has_keyword PHARMA_BIOTECH_KEYWORDS
            (lower keep_case (text "Harvard University")) = false))
  /\ is_non_academic_affiliation keep_case no_class (text "Harvard University") = false.
Proof.
  assert (H : forallb isspace (text "Harvard University") = true
   \/ (has_keyword ACADEMIC_KEYWORDS (lower keep_case (text "Harvard University")) = true
       /\ has_keyword PHARMA_BIOTECH_KEYWORDS
            (lower keep_case (text "Harvard University")) = false)).
  { right. split; reflexivity. }
  split; [exact H|].
  exact (classify_false_blank_or_academic_only keep_case no_class _ H).
Defined.

(** Novartis AG: no academic term, the suffix pattern matches. *)
Lemma classify_without_academic_witness :
  has_keyword ACADEMIC_KEYWORDS (lower keep_case (text "Novartis AG")) = false
  /\ is_non_academic_affiliation keep_case no_class (text "Novartis AG") = true.
Proof.
  assert (H : has_keyword ACADEMIC_KEYWORDS (lower keep_case (text "Novartis AG")) = false)
    by reflexivity.
  split; [exact H|].
  apply (classify_without_academic_term keep_case no_class _ H).
  right. reflexivity.
Defined.

(** ** Email extractor *)

Lemma fold_append_new (l acc : list str) :
  fold_left append_new l acc = acc ++ first_seen acc l.
Proof.
  revert acc. induction l as [|x r IH]; intros acc; simpl.
  - now rewrite app_nil_r.
  - unfold append_new at 2. destruct (mem x acc); rewrite IH; [reflexivity|].
    now rewrite <- app_assoc.
Qed.

Lemma first_seen_In (l seen : list str) (x : str) :
  In x (first_seen seen l) <-> In x l /\ ~ In x seen.
Proof.
  revert seen. induction l as [|y r IH]; intros seen; simpl; [tauto|].
  destruct (mem y seen) eqn:E.
  - apply mem_In in E. rewrite IH. split; [tauto|].
    intros [[->|H] Hn]; [contradiction | tauto].
  - assert (Hy : ~ In y seen) by (rewrite <- mem_In, E; discriminate).
    simpl. rewrite IH, in_app_iff. simpl.
    destruct (list_eq_dec N.eq_dec y x) as [->|Hne]; tauto.
Qed.

Lemma first_seen_NoDup (l seen : list str) : NoDup (first_seen seen l).
Proof.
  revert seen. induction l as [|y r IH]; intros seen; simpl; [constructor|].
  destruct (mem y seen); [apply IH|].
  constructor; [|apply IH].
  rewrite first_seen_In, in_app_iff. simpl. tauto.
Qed.

Lemma starts_with_refl_app (a b : str) : starts_with a (a ++ b) = true.
Proof.
  induction a as [|c a IH]; simpl; [reflexivity|]. now rewrite N.eqb_refl.
Qed.

Lemma contains_firstn (n : nat) (s : str) : contains (firstn n s) s = true.
Proof.
  assert (H : starts_with (firstn n s) s = true).
  { rewrite <- (firstn_skipn n s) at 2. apply starts_with_refl_app. }
  destruct s; simpl in *; now rewrite H.
Qed.

Lemma starts_with_length (w s : str) :
  starts_with w s = true -> (length w <= length s)%nat.
Proof.
  revert s. induction w as [|a w IH]; intros [|b s]; simpl;
    try discriminate; try lia.
  intros H. apply andb_true_iff in H as [_ H]. apply IH in H. lia.
Qed.

Lemma run_length (cls : N -> bool) (s : str) : (run cls s <= length s)%nat.
Proof.
  induction s as [|c r IH]; simpl; [lia|]. destruct (cls c); lia.
Qed.

Lemma greedy_some (min k : nat) (cont : nat -> option nat) (n : nat) :
  greedy min k cont = Some n ->
  exists j, (min <= j <= k)%nat /\ cont j = Some n.
Proof.
  induction k as [|k IH]; simpl.
  - destruct (Nat.ltb_spec 0 min) as [L|L]; [discriminate|].
    destruct (cont O) eqn:E; [|discriminate].
    intros H. injection H as <-. exists O. split; [lia | assumption].
  - destruct (Nat.ltb_spec (S k) min) as [L|L]; [discriminate|].
    destruct (cont (S k)) eqn:E.
    + intros H. injection H as <-. exists (S k). split; [lia | assumption].
    + intros H. destruct (IH H) as [j [Hj Hc]]. exists j.
      split; [lia | assumption].
Qed.

Lemma last_of_cons (prev : option N) (c : N) (l : str) :
  last_of prev (c :: l) = last_of (Some c) l.
Proof.
  unfold last_of. simpl. destruct (rev l); reflexivity.
Qed.

Section Emails.

Variable unicode_alnum : N -> bool.

Local Abbreviation emails_in := (extract_emails unicode_alnum).
Local Abbreviation matches := (re_findall unicode_alnum).

(** A match does not run past the end of the text. *)
Lemma match_here_length (p : list atom) (prev : option N) (s : str) (n : nat) :
  match_here unicode_alnum p prev s = Some n -> (n <= length s)%nat.
Proof.
  revert prev s n. induction p as [|a p IH]; intros prev s n; cbn [match_here].
  - intros H. injection H as <-. lia.
  - destruct a as [|c|alts|cls min].
    + destruct (xorb _ _); [apply IH | discriminate].
    + destruct s as [|x r]; [discriminate|].
      destruct (x =? c); [|discriminate].
      destruct (match_here unicode_alnum p (Some x) r) eqn:E; [|discriminate].
      intros H. injection H as <-. apply IH in E. simpl. lia.
    + intros H. apply first_alt_some in H as [w [_ H]].
      destruct (starts_with w s) eqn:W; [|discriminate].
      destruct (match_here unicode_alnum p _ (skipn (length w) s)) eqn:E;
        [|discriminate].
      injection H as <-. apply IH in E. apply starts_with_length in W.
      rewrite length_skipn in E. lia.
    + intros H. apply greedy_some in H as [j [Hj H]].
      destruct (match_here unicode_alnum p _ (skipn j s)) eqn:E; [|discriminate].
      injection H as <-. apply IH in E. rewrite length_skipn in E.
      pose proof (run_length cls s). lia.
Qed.

(** Every text of [findall_from] stands in the input at a place where the
    pattern matches it. *)
Lemma findall_from_matches (p : list atom) (s : str) (prev : option N)
    (skip : nat) (e : str) :
  In e (findall_from unicode_alnum p prev s skip) ->
  exists pre post,
    s = pre ++ e ++ post
    /\ match_here unicode_alnum p (last_of prev pre) (e ++ post)
       = Some (length e).
Proof.
  revert prev skip. induction s as [|c r IH]; intros prev skip; [intros []|].
  assert (Step : forall k, In e (findall_from unicode_alnum p (Some c) r k) ->
            exists pre post,
              c :: r = pre ++ e ++ post
              /\ match_here unicode_alnum p (last_of prev pre) (e ++ post)
                 = Some (length e)).
  { intros k H. destruct (IH _ _ H) as [pre [post [E M]]].
    exists (c :: pre), post. rewrite last_of_cons. split; [|assumption].
    simpl. now rewrite E. }
  cbn [findall_from]. destruct skip as [|k]; [|apply Step].
  destruct (match_here unicode_alnum p prev (c :: r)) as [[|n]|] eqn:M;
    try apply Step.
  intros [<- | H]; [|exact (Step _ H)].
  exists [], (skipn (S n) (c :: r)). pose proof (match_here_length _ _ _ _ M) as L.
  rewrite firstn_skipn, length_firstn, Nat.min_l by exact L.
  split; [reflexivity | exact M].
Qed.

Lemma findall_from_substring (p : list atom) (s : str) (prev : option N)
    (skip : nat) (e : str) :
  In e (findall_from unicode_alnum p prev s skip) -> contains e s = true.
Proof.
  revert prev skip. induction s as [|c r IH]; intros prev skip; [intros []|].
  assert (Step : forall k, In e (findall_from unicode_alnum p (Some c) r k) ->
                           contains e (c :: r) = true).
  { intros k H. cbn [contains]. rewrite (IH _ _ H). apply orb_true_r. }
  cbn [findall_from]. destruct skip as [|k]; [|apply Step].
  destruct (match_here unicode_alnum p prev (c :: r)) as [[|n]|];
    try apply Step.
  intros [<- | H]; [apply contains_firstn | exact (Step _ H)].
Qed.

(** C7: [extract_emails] returns the texts that match the email pattern in
    the input, without repetition and in first-seen order; an email that
    occurs twice in the input is returned once; an empty or absent input
    gives the empty list. *)
Theorem extract_emails_first_seen :
  emails_in None = []
  /\ emails_in (Some []) = []
  /\ (forall s : str,
        emails_in (Some s) = first_seen [] (matches email_pattern s)
        /\ NoDup (emails_in (Some s))
        /\ (forall e, In e (emails_in (Some s))
                      <-> In e (matches email_pattern s))
        /\ (forall e, In e (emails_in (Some s)) -> contains e s = true)
        /\ (forall e, In e (emails_in (Some s)) ->
            exists pre post,
              s = pre ++ e ++ post
              /\ match_here unicode_alnum email_pattern (last_of None pre)
                   (e ++ post) = Some (length e)))
  /\ emails_in (Some (text "a@b.com x a@b.com")) = [text "a@b.com"].
Proof.
  assert (E : forall s : str,
            emails_in (Some s) = first_seen [] (matches email_pattern s)).
  { intros s. unfold extract_emails, unique.
    destruct s as [|c r]; [reflexivity|]. cbn [truthy negb].
    now rewrite fold_append_new. }
  split; [reflexivity|]. split; [reflexivity|]. split; [|reflexivity].
  intros s. split; [apply E|]. rewrite E. split; [apply first_seen_NoDup|].
  split; [intros e; rewrite first_seen_In; simpl; tauto|].
  split.
  - intros e H. apply first_seen_In in H as [H _].
    now apply findall_from_substring in H.
  - intros e H. apply first_seen_In in H as [H _].
    now apply findall_from_matches in H.
Qed.

End Emails.

(** ** Date normaliser *)

Section Dates.

Variable unicode_digit : N -> bool.

Local Abbreviation month_of := (normalize_month unicode_digit).
Local Abbreviation day_of := (normalize_day unicode_digit).
Local Abbreviation normalized := (normalizeDate unicode_digit).
Local Abbreviation numeric := (isdigit unicode_digit).
Local Abbreviation date_from := (date_of_fields unicode_digit).

Lemma zfill_digits (s : str) : numeric s = true -> zfill 2 s = pad2 s.
Proof.
  unfold isdigit, zfill, pad2. intros H.
  apply andb_true_iff in H as [Ht Hd].
  destruct (Nat.leb_spec 2 (length s)) as [L|L].
  - replace (2 - length s)%nat with O by lia. reflexivity.
  - destruct s as [|c r]; [discriminate Ht|].
    simpl in Hd. apply andb_true_iff in Hd as [Hc _].
    replace ((c =? 43) || (c =? 45)) with false; [reflexivity|].
    symmetry. apply not_true_is_false. intros U.
    unfold isdigit_char in Hc.
    destruct (c <? 128) eqn:A; bool_to_prop U; [bool_to_prop Hc; lia|].
    apply N.ltb_ge in A. lia.
Qed.

Lemma month_number_get (table : list (str * str)) (key default : str) :
  dict_get table key default
  = match month_number table key with Some v => v | None => default end.
Proof.
  induction table as [|[k v] rest IH]; simpl; [reflexivity|].
  destruct (str_eqb k key); [reflexivity | exact IH].
Qed.

Lemma month_number_In (table : list (str * str)) (prefix number : str) :
  month_number table prefix = Some number -> In (prefix, number) table.
Proof.
  induction table as [|[k v] rest IH]; simpl; [discriminate|].
  destruct (str_eqb k prefix) eqn:E.
  - apply str_eqb_eq in E. intros H. injection H as <-. left. now subst.
  - intros H. right. now apply IH.
Qed.

Lemma month_number_digits (prefix number : str) :
  month_number month_map prefix = Some number -> numeric number = true.
Proof.
  unfold month_map. simpl.
  repeat (destruct (str_eqb _ prefix);
          [intros H; injection H as <-; reflexivity|]).
  discriminate.
Qed.

Lemma month_part (month : str) :
  (if numeric (convert_month_name_to_number month)
   then zfill 2 (convert_month_name_to_number month) else month)
  = month_of month.
Proof.
  unfold convert_month_name_to_number, normalize_month.
  rewrite month_number_get.
  destruct (month_number month_map (firstn 3 month)) as [number|] eqn:E.
  - pose proof (month_number_digits _ _ E) as D. rewrite D.
    now apply zfill_digits.
  - destruct (numeric month) eqn:D; [now apply zfill_digits | reflexivity].
Qed.

Lemma day_part (day : str) :
  (if numeric day then zfill 2 day else day) = day_of day.
Proof.
  unfold normalize_day. destruct (numeric day) eqn:D;
    [now apply zfill_digits | reflexivity].
Qed.

Lemma date_of_fields_normalizeDate (year month day : option str) :
  date_from (or_empty year) (or_empty month) (or_empty day)
  = normalized year month day.
Proof.
  unfold date_of_fields, normalizeDate. cbv zeta.
  rewrite month_part, day_part.
  destruct year as [[|y0 y]|], month as [[|m0 m]|], day as [[|d0 d]|];
    reflexivity.
Qed.

(** C6: the date is the "-"-join of the present fields in the order year,
    month, day; the month goes through the Jan..Dec table on its first
    three characters and is padded to two digits, a numeric month or day is
    padded to two digits, anything else is kept. *)
Theorem extract_publication_date_normalizes :
  (forall article : Element,
     extract_publication_date unicode_digit article
     = match find article [Descendant (text "PubDate")] with
       | None => []
       | Some pubdate =>
           normalized (findtext pubdate [Child (text "Year")])
             (findtext pubdate [Child (text "Month")])
             (findtext pubdate [Child (text "Day")])
       end)
  /\ (forall year month day : option str,
        date_from (or_empty year) (or_empty month) (or_empty day)
        = normalized year month day)
  /\ (forall y0 y d0 d,
        normalized (Some (y0 :: y)) None (Some (d0 :: d))
        = (y0 :: y) ++ text "-" ++ day_of (d0 :: d))
  /\ (forall y0 y, normalized (Some (y0 :: y)) None None = y0 :: y)
  /\ normalized None None None = []
  /\ normalized (Some (text "2023")) (Some (text "Jul")) (Some (text "01"))
     = text "2023-07-01"
  /\ (forall year month day : str,
        numeric year = true -> numeric month = true -> numeric day = true ->
        normalized (Some year) (Some month) (Some day)
        = year ++ text "-" ++ pad2 month ++ text "-" ++ pad2 day).
Proof.
  split; [|split; [exact date_of_fields_normalizeDate|]].
  - intros article. unfold extract_publication_date.
    destruct (find article _); [|reflexivity].
    apply date_of_fields_normalizeDate.
  - repeat split; try reflexivity.
    intros year month day Hy Hm Hd.
    rewrite <- date_of_fields_normalizeDate. cbn [or_empty].
    unfold date_of_fields. cbv zeta. rewrite month_part, day_part.
    unfold normalize_month, normalize_day. rewrite Hm, Hd.
    assert (T : forall s, numeric s = true -> truthy s = true).
    { intros s H. now apply andb_true_iff in H as [H _]. }
    rewrite (T _ Hy), (T _ Hm), (T _ Hd).
    destruct (month_number month_map (firstn 3 month)) as [number|] eqn:E.
    + exfalso. apply month_number_In in E.
      destruct month as [|c month]; [discriminate Hm|].
      unfold isdigit in Hm. simpl in Hm.
      apply andb_true_iff in Hm as [Hc _].
      assert (L : 128 <= c \/ 48 <= c <= 57).
      { unfold isdigit_char in Hc. destruct (c <? 128) eqn:A.
        - right. bool_to_prop Hc. lia.
        - left. now apply N.ltb_ge in A. }
      change (firstn 3 (c :: month)) with (c :: firstn 2 month) in E.
      vm_compute in E.
      repeat (destruct E as [E|E]; [injection E as <-; lia|]). exact E.
    + reflexivity.
Qed.

End Dates.

(** The fully numeric date 2023, 7, 1. *)
Lemma extract_publication_date_witness :
  normalizeDate no_class (Some (text "2023")) (Some (text "7")) (Some (text "1"))
  = text "2023-07-01".
Proof.
  exact (proj2 (proj2 (proj2 (proj2 (proj2 (proj2
           (extract_publication_date_normalizes no_class))))))
           (text "2023") (text "7") (text "1") eq_refl eq_refl eq_refl).
Defined.

(** ** Document parser *)

Lemma NoDup_snoc (l : list str) (x : str) :
  NoDup l -> ~ In x l -> NoDup (l ++ [x]).
Proof.
  intros Hl. induction Hl as [|a l Ha Hl IH]; intros Hx; simpl.
  - constructor; [intros [] | constructor].
  - constructor.
    + rewrite in_app_iff. simpl. intros [H | [H | []]]; [contradiction|].
      apply Hx. now left.
    + apply IH. intros H. apply Hx. now right.
Qed.

Lemma append_new_In (l : list str) (x y : str) :
  In y (append_new l x) <-> In y l \/ y = x.
Proof.
  unfold append_new. destruct (mem x l) eqn:E.
  - apply mem_In in E. split; [tauto|]. intros [H | ->]; assumption.
  - rewrite in_app_iff. simpl. intuition.
Qed.

Lemma append_new_NoDup (l : list str) (x : str) :
  NoDup l -> NoDup (append_new l x).
Proof.
  intros H. unfold append_new. destruct (mem x l) eqn:E; [assumption|].
  apply NoDup_snoc; [assumption|]. rewrite <- mem_In, E. discriminate.
Qed.

Lemma lstrip_snoc (x : str) (a : N) :
  isspace a = false -> exists y, lstrip (x ++ [a]) = y ++ [a].
Proof.
  intros Ha. induction x as [|c x IH]; simpl.
  - rewrite Ha. now exists [].
  - destruct (isspace c); [exact IH|]. now exists (c :: x).
Qed.

Lemma strip_no_surrounding_space (t : str) : no_surrounding_space (strip t).
Proof.
  unfold strip, rstrip. split; intros c r E.
  - destruct (lstrip t) as [|a u] eqn:L; [discriminate E|].
    apply lstrip_head in L. simpl in E.
    destruct (lstrip_snoc (rev u) a L) as [y Hy]. rewrite Hy in E.
    rewrite rev_app_distr in E. simpl in E. injection E as <- _. exact L.
  - apply (f_equal (@rev N)) in E. rewrite rev_involutive, rev_app_distr in E.
    simpl in E. now apply lstrip_head in E.
Qed.

Lemma no_surrounding_space_nil : no_surrounding_space [].
Proof.
  split; intros c r E; [discriminate E|]. destruct r; discriminate E.
Qed.

Lemma process_articles_extracted (extract : Element -> res (option record))
    (articles : list Element) (results : list record) :
  process_articles extract articles results
  = results ++ extracted extract articles.
Proof.
  revert results. induction articles as [|a rest IH]; intros results; simpl.
  - now rewrite app_nil_r.
  - destruct (extract a) as [[[|kv r]|]|e]; simpl; rewrite IH;
      rewrite <- ?app_assoc; reflexivity.
Qed.

Section Parser.

Variable unicode_lower : str -> nat -> str.
Variable unicode_alnum : N -> bool.
Variable unicode_digit : N -> bool.
Variable set_order : list str -> list str.

Local Abbreviation non_academic := (has_non_academic unicode_lower unicode_alnum).
Local Abbreviation classify :=
  (is_non_academic_affiliation unicode_lower unicode_alnum).
Local Abbreviation emails_in := (extract_emails unicode_alnum).
Local Abbreviation authors_loop := (process_authors unicode_lower unicode_alnum).
Local Abbreviation one_author := (author_step unicode_lower unicode_alnum).
Local Abbreviation parse_article :=
  (parse_single_article unicode_lower unicode_alnum unicode_digit set_order).
Local Abbreviation all_emails := (all_emails_of unicode_lower unicode_alnum set_order).

Lemma step_names (st : authors_state) (author : Element) :
  non_academic_authors (one_author st author)
  = if non_academic author && truthy (full_name_of author)
    then append_new (non_academic_authors st) (full_name_of author)
    else non_academic_authors st.
Proof.
  unfold author_step, has_non_academic. cbv zeta.
  destruct (_ && _); reflexivity.
Qed.

Lemma step_companies (st : authors_state) (author : Element) :
  company_affiliations (one_author st author)
  = if non_academic author && truthy (full_name_of author)
    then fold_left (fun acc aff =>
                      if classify aff && negb (mem aff acc)
                      then acc ++ [aff] else acc)
           (author_affiliations_of author) (company_affiliations st)
    else company_affiliations st.
Proof.
  unfold author_step, has_non_academic. cbv zeta.
  destruct (_ && _); reflexivity.
Qed.

Lemma step_emails (st : authors_state) (author : Element) :
  emails (one_author st author)
  = emails st ++ flat_map (fun aff_text => emails_in (Some aff_text))
                   (author_affiliations_of author).
Proof.
  unfold author_step. cbv zeta. destruct (_ && _); reflexivity.
Qed.

Lemma companies_In (affs acc : list str) (x : str) :
  In x (fold_left (fun acc aff =>
                     if classify aff && negb (mem aff acc)
                     then acc ++ [aff] else acc) affs acc)
  <-> In x acc \/ (In x affs /\ classify x = true).
Proof.
  revert acc. induction affs as [|a affs IH]; intros acc; simpl; [tauto|].
  rewrite IH. destruct (classify a) eqn:C; simpl.
  - destruct (mem a acc) eqn:M; simpl.
    + apply mem_In in M. split; [tauto|].
      intros [H | [[<- | H] Hc]]; auto.
    + rewrite in_app_iff. simpl. split.
      * intros [[H | [<- | []]] | [H Hc]]; auto.
      * intros [H | [[<- | H] Hc]]; auto.
  - split; [tauto|]. intros [H | [[<- | H] Hc]]; auto. congruence.
Qed.

Lemma companies_NoDup (affs acc : list str) :
  NoDup acc ->
  NoDup (fold_left (fun acc aff =>
                      if classify aff && negb (mem aff acc)
                      then acc ++ [aff] else acc) affs acc).
Proof.
  revert acc. induction affs as [|a affs IH]; intros acc H; simpl; [assumption|].
  apply IH. destruct (classify a); simpl; [|assumption].
  destruct (mem a acc) eqn:M; simpl; [assumption|].
  apply NoDup_snoc; [assumption|]. rewrite <- mem_In, M. discriminate.
Qed.

Lemma loop_names (l : list Element) (st : authors_state) (name : str) :
  In name (non_academic_authors (fold_left one_author l st))
  <-> In name (non_academic_authors st)
      \/ exists author, In author l /\ full_name_of author = name
                        /\ truthy name = true
                        /\ non_academic author = true.
Proof.
  revert st. induction l as [|a l IH]; intros st; simpl.
  - split; [tauto|]. intros [H | [x [[] _]]]. exact H.
  - rewrite IH, step_names. split.
    + intros [H | [x [Hx Hr]]].
      * destruct (non_academic a) eqn:Q; simpl in H; [|tauto].
        destruct (truthy (full_name_of a)) eqn:T; [|tauto].
        apply append_new_In in H as [H | ->]; [tauto|].
        right. exists a. auto.
      * right. exists x. tauto.
    + intros [H | [x [[<- | Hx] [Hn [Ht Hq]]]]].
      * left. destruct (_ && _); [apply append_new_In|]; tauto.
      * left. subst name. rewrite Hq, Ht. simpl. apply append_new_In. tauto.
      * right. exists x. tauto.
Qed.

Lemma loop_names_NoDup (l : list Element) (st : authors_state) :
  NoDup (non_academic_authors st) ->
  NoDup (non_academic_authors (fold_left one_author l st)).
Proof.
  revert st. induction l as [|a l IH]; intros st H; simpl; [assumption|].
  apply IH. rewrite step_names.
  destruct (_ && _); [now apply append_new_NoDup | assumption].
Qed.

Lemma loop_companies (l : list Element) (st : authors_state) (aff : str) :
  In aff (company_affiliations (fold_left one_author l st))
  <-> In aff (company_affiliations st)
      \/ exists author, In author l /\ truthy (full_name_of author) = true
                        /\ In aff (author_affiliations_of author)
                        /\ classify aff = true.
Proof.
  revert st. induction l as [|a l IH]; intros st; simpl.
  - split; [tauto|]. intros [H | [x [[] _]]]. exact H.
  - rewrite IH, step_companies. split.
    + intros [H | [x [Hx Hr]]].
      * destruct (non_academic a) eqn:Q; simpl in H; [|tauto].
        destruct (truthy (full_name_of a)) eqn:T; [|tauto].
        apply companies_In in H as [H | [H Hc]]; [tauto|].
        right. exists a. auto.
      * right. exists x. tauto.
    + intros [H | [x [[<- | Hx] [Ht [Hin Hc]]]]].
      * left. destruct (_ && _); [apply companies_In|]; tauto.
      * left. assert (Q : non_academic a = true).
        { apply existsb_exists. eauto. }
        rewrite Q, Ht. simpl. apply companies_In. tauto.
      * right. exists x. tauto.
Qed.

Lemma loop_companies_NoDup (l : list Element) (st : authors_state) :
  NoDup (company_affiliations st) ->
  NoDup (company_affiliations (fold_left one_author l st)).
Proof.
  revert st. induction l as [|a l IH]; intros st H; simpl; [assumption|].
  apply IH. rewrite step_companies.
  destruct (_ && _); [now apply companies_NoDup | assumption].
Qed.

Lemma loop_emails (l : list Element) (st : authors_state) :
  emails (fold_left one_author l st)
  = emails st
    ++ flat_map (fun author =>
                   flat_map (fun aff_text => emails_in (Some aff_text))
                     (author_affiliations_of author)) l.
Proof.
  revert st. induction l as [|a l IH]; intros st; simpl.
  - now rewrite app_nil_r.
  - now rewrite IH, step_emails, <- app_assoc.
Qed.

(** C2: the Non-academic Author(s) field joins a duplicate-free list whose
    members are exactly the non-empty full names of the authors with at
    least one affiliation classified non-academic; the Company
    Affiliation(s) field joins a duplicate-free list of affiliations of
    such authors that are themselves classified non-academic; one
    non-academic affiliation among several is enough for the author to be
    listed (ANY-match), and only that affiliation joins the companies. *)
Theorem non_academic_authors_and_companies (article : Element) :
  let st := authors_loop article in
  field (text "Non-academic Author(s)") (parse_article article)
  = Some (join (text "; ") (non_academic_authors st))
  /\ NoDup (non_academic_authors st)
  /\ (forall name,
        In name (non_academic_authors st)
        <-> name <> []
            /\ exists author, In author (authors_of article)
                              /\ full_name_of author = name
                              /\ non_academic author = true)
  /\ field (text "Company Affiliation(s)") (parse_article article)
     = Some (join (text "; ") (company_affiliations st))
  /\ NoDup (company_affiliations st)
  /\ (forall aff,
        In aff (company_affiliations st)
        <-> classify aff = true
            /\ exists author, In author (authors_of article)
                              /\ full_name_of author <> []
                              /\ In aff (author_affiliations_of author))
  /\ (forall author aff,
        In author (authors_of article) -> full_name_of author <> [] ->
        In aff (author_affiliations_of author) -> classify aff = true ->
        In (full_name_of author) (non_academic_authors st)
        /\ In aff (company_affiliations st)).
Proof.
  cbv zeta. unfold process_authors. fold (authors_of article).
  set (st := fold_left one_author (authors_of article) _).
  assert (Names : forall name,
            In name (non_academic_authors st)
            <-> name <> []
                /\ exists author, In author (authors_of article)
                                  /\ full_name_of author = name
                                  /\ non_academic author = true).
  { intros name. unfold st. rewrite loop_names. simpl. split.
    - intros [[] | [a [Ha [Hn [Ht Hq]]]]]. split; [|eauto].
      intros ->. discriminate Ht.
    - intros [Hn [a [Ha [Hf Hq]]]]. right. exists a.
      repeat split; try assumption. destruct name; [contradiction|reflexivity]. }
  assert (Companies : forall aff,
            In aff (company_affiliations st)
            <-> classify aff = true
                /\ exists author, In author (authors_of article)
                                  /\ full_name_of author <> []
                                  /\ In aff (author_affiliations_of author)).
  { intros aff. unfold st. rewrite loop_companies. simpl. split.
    - intros [[] | [a [Ha [Ht [Hin Hc]]]]]. split; [assumption|].
      exists a. repeat split; try assumption. intros E. rewrite E in Ht.
      discriminate Ht.
    - intros [Hc [a [Ha [Hn Hin]]]]. right. exists a.
      repeat split; try assumption.
      destruct (full_name_of a); [contradiction|reflexivity]. }
  split; [reflexivity|].
  split; [apply loop_names_NoDup; constructor|].
  split; [exact Names|].
  split; [reflexivity|].
  split; [apply loop_companies_NoDup; constructor|].
  split; [exact Companies|].
  intros author aff Ha Hn Hin Hc. split.
  - apply Names. split; [assumption|]. exists author.
    repeat split; try assumption. apply existsb_exists. eauto.
  - apply Companies. split; [assumption|]. exists author. auto.
Qed.

Lemma extract_text_first_text (article : Element) (path : list step) :
  or_empty (extract_text article path) = first_text article path.
Proof.
  unfold extract_text, extract_text_from, first_text.
  destruct (find article path) as [found|]; [|reflexivity].
  destruct (text_of found) as [[|c r]|]; reflexivity.
Qed.

Lemma first_text_no_surrounding_space (article : Element) (path : list step) :
  no_surrounding_space (first_text article path).
Proof.
  unfold first_text. destruct (find article path) as [found|];
    [|apply no_surrounding_space_nil].
  destruct (text_of found);
    [apply strip_no_surrounding_space | apply no_surrounding_space_nil].
Qed.

(** C10: the PubmedID and the Title of a record are the stripped text of
    the first PMID and ArticleTitle element under the article, and the
    empty text when there is no such element, when it has no text, or when
    the lookup raises; neither value starts or ends with white space. *)
Theorem id_and_title_stripped (article : Element) :
  field (text "PubmedID") (parse_article article)
  = Some (first_text article [Descendant (text "PMID")])
  /\ field (text "Title") (parse_article article)
     = Some (first_text article [Descendant (text "ArticleTitle")])
  /\ (forall path, or_empty (extract_text article path) = first_text article path)
  /\ (forall e, or_empty (extract_text_from (Raise e)) = [])
  /\ no_surrounding_space (first_text article [Descendant (text "PMID")])
  /\ no_surrounding_space (first_text article [Descendant (text "ArticleTitle")]).
Proof.
  unfold parse_single_article. cbv zeta. rewrite !extract_text_first_text.
  repeat split; try reflexivity;
    try apply extract_text_first_text;
    try apply first_text_no_surrounding_space;
    intros c r E;
    now apply (first_text_no_surrounding_space article _) in E.
Qed.

Lemma emails_from_elements_In (article : Element) (path : list step) (e : str) :
  In e (extract_emails_from_elements unicode_alnum article path)
  <-> exists element t, In element (findall article path)
                        /\ text_of element = Some t
                        /\ In e (emails_in (Some t)).
Proof.
  unfold extract_emails_from_elements. rewrite in_flat_map. split.
  - intros [element [Hin He]]. destruct (text_of element) as [t|] eqn:T.
    + exists element, t. destruct (truthy (or_empty (Some t)));
        [auto | destruct He].
    + destruct He.
  - intros [element [t [Hin [T He]]]]. exists element. split; [assumption|].
    rewrite T. simpl. destruct t as [|c r]; [destruct He | exact He].
Qed.

(** The affiliation texts collected for an author: the stripped text, when
    it is not empty, of the first Affiliation child of each AffiliationInfo
    node under the author. *)
Lemma author_affiliations_In (author : Element) (aff : str) :
  In aff (author_affiliations_of author)
  <-> exists aff_info found t,
        In aff_info (findall author [Descendant (text "AffiliationInfo")])
        /\ find aff_info [Child (text "Affiliation")] = Some found
        /\ text_of found = Some t /\ aff = strip t /\ aff <> [].
Proof.
  unfold author_affiliations_of. rewrite in_flat_map. split.
  - intros [aff_info [Hin H]]. unfold extract_text, extract_text_from in H.
    destruct (find aff_info _) as [found|] eqn:F; [|destruct H].
    destruct (text_of found) as [t|] eqn:T; [|destruct H].
    destruct (truthy t); [|destruct H].
    destruct (truthy (strip t)) eqn:S; [|destruct H].
    destruct H as [<- | []]. exists aff_info, found, t.
    repeat split; try assumption. intros E. rewrite E in S. discriminate S.
  - intros [aff_info [found [t [Hin [F [T [-> N]]]]]]]. exists aff_info.
    split; [assumption|]. unfold extract_text, extract_text_from.
    rewrite F, T. destruct t as [|c r]; [now contradiction N|].
    cbn [truthy]. destruct (strip (c :: r)); [now contradiction N|].
    now left.
Qed.

(** C8: the Corresponding Author Email field joins, in the order of the
    set and each one once, the emails found in the Email fields under an
    Author under an AuthorList, in the Name fields under a DataBank under a
    DataBankList, and in the affiliation texts of the authors: the stripped
    text of the first Affiliation child of each AffiliationInfo node under
    an Author node.  Other places under the article are not read. *)
Theorem corresponding_emails_union (article : Element) :
  lists_the_set set_order ->
  field (text "Corresponding Author Email") (parse_article article)
  = Some (join (text "; ") (all_emails article))
  /\ NoDup (all_emails article)
  /\ (forall e,
        In e (all_emails article)
        <-> (exists element t,
               In element (findall article author_email_path)
               /\ text_of element = Some t /\ In e (emails_in (Some t)))
            \/ (exists element t,
                  In element (findall article databank_name_path)
                  /\ text_of element = Some t /\ In e (emails_in (Some t)))
            \/ (exists author aff,
                  In author (authors_of article)
                  /\ In aff (author_affiliations_of author)
                  /\ In e (emails_in (Some aff))))
  /\ (forall author aff,
        In aff (author_affiliations_of author)
        <-> exists aff_info found t,
              In aff_info
                (findall author [Descendant (text "AffiliationInfo")])
              /\ find aff_info [Child (text "Affiliation")] = Some found
              /\ text_of found = Some t /\ aff = strip t /\ aff <> []).
Proof.
  intros H. split; [reflexivity|]. unfold all_emails_of.
  split; [apply H|]. split; [|exact author_affiliations_In].
  intros e. rewrite (proj2 (H _)).
  unfold corresponding_emails_of, process_authors.
  rewrite loop_emails, !in_app_iff, !emails_from_elements_In. simpl.
  rewrite in_flat_map. fold (authors_of article).
  fold author_email_path. fold databank_name_path.
  assert (A : (exists author, In author (authors_of article)
                 /\ In e (flat_map (fun aff_text => emails_in (Some aff_text))
                            (author_affiliations_of author)))
              <-> exists author aff, In author (authors_of article)
                    /\ In aff (author_affiliations_of author)
                    /\ In e (emails_in (Some aff))).
  { split.
    - intros [a [Ha Hf]]. apply in_flat_map in Hf as [aff [H1 H2]]. eauto.
    - intros [a [aff [Ha [H1 H2]]]]. exists a. split; [assumption|].
      apply in_flat_map. eauto. }
  rewrite A. tauto.
Qed.

Section Documents.

Variable fromstring : str -> res Element.

Local Abbreviation parse :=
  (parse_pubmed_records unicode_lower unicode_alnum unicode_digit set_order
     fromstring).

Lemma parse_with_found (extract : Element -> res (option record))
    (xml_data : str) (root : Element) :
  truthy (strip xml_data) = true -> fromstring xml_data = Ok root ->
  parse_pubmed_records_with fromstring extract xml_data
  = Ok (extracted extract (findall root [Descendant (text "PubmedArticle")])).
Proof.
  intros Hb Hr. unfold parse_pubmed_records_with. rewrite Hb, Hr. simpl.
  now rewrite process_articles_extracted.
Qed.

(** C9: every article node of a parsed document gives one record, in
    document order, whatever its content; an article node in which nothing
    is found gives the record with six empty fields. *)
Theorem record_for_every_article (xml_data : str) (root : Element) :
  truthy (strip xml_data) = true -> fromstring xml_data = Ok root ->
  parse xml_data
  = Ok (map parse_article (findall root [Descendant (text "PubmedArticle")]))
  /\ (set_order [] = [] ->
      parse_article (Elem (text "PubmedArticle") None []) = empty_record).
Proof.
  intros Hb Hr. split.
  - unfold parse_pubmed_records. rewrite (parse_with_found _ _ _ Hb Hr).
    f_equal.
  - intros Hs. unfold parse_single_article, all_emails_of. cbv zeta.
    replace (emails (authors_loop (Elem (text "PubmedArticle") None []))
             ++ corresponding_emails_of unicode_alnum
                  (Elem (text "PubmedArticle") None []))
      with (@nil str) by reflexivity.
    rewrite Hs. reflexivity.
Qed.


(** An exception of [ET.fromstring] that is not a [ParseError] is not
    caught. *)
Lemma parse_other_exception_propagates
    (extract : Element -> res (option record)) (xml_data : str) :
  truthy (strip xml_data) = true ->
  fromstring xml_data = Raise OtherException ->
  parse_pubmed_records_with fromstring extract xml_data = Raise OtherException.
Proof.
  intros Hb Hr. unfold parse_pubmed_records_with. now rewrite Hb, Hr.
Qed.

End Documents.

End Parser.

(** ** Instances on the sample documents *)

Lemma first_seen_order_lists_the_set : lists_the_set first_seen_order.
Proof.
  intros xs. unfold first_seen_order. split; [apply first_seen_NoDup|].
  intros x. rewrite first_seen_In. simpl. tauto.
Defined.


(** The sample article: one non-academic author, the company affiliation
    only, both emails once. *)
Example sample_article_record :
  parse_single_article keep_case no_class no_class first_seen_order sample_article
  = [ (text "PubmedID", []); (text "Title", []); (text "Publication Date", []);
      (text "Non-academic Author(s)", text "John Doe");
      (text "Company Affiliation(s)",
       text "Pfizer Inc., New York. john.doe@pfizer.com");
      (text "Corresponding Author Email",
       text "john.doe@pfizer.com; data@bank.org") ].
Proof. vm_compute. reflexivity. Qed.

(** The collective author has a non-academic affiliation and the empty full
    name, which the list of names does not contain. *)
Lemma names_exactly_counterexample :
  ~ names_exactly_of_non_academic_authors keep_case no_class
      collective_author_article.
Proof.
  intros H.
  assert (X : In [] (non_academic_authors
                       (process_authors keep_case no_class
                          collective_author_article))).
  { apply H. exists collective_author. repeat split. now left. }
  exact X.
Qed.

Lemma corresponding_emails_witness :
  lists_the_set first_seen_order
  /\ NoDup (all_emails_of keep_case no_class first_seen_order sample_article).
Proof.
  split; [exact first_seen_order_lists_the_set|].
  exact (proj1 (proj2 (corresponding_emails_union keep_case no_class no_class
                         first_seen_order sample_article
                         first_seen_order_lists_the_set))).
Defined.

Lemma record_for_every_article_witness :
  truthy (strip sample_document) = true
  /\ sample_fromstring sample_document = Ok sample_root
  /\ parse_pubmed_records keep_case no_class no_class first_seen_order
       sample_fromstring sample_document
     = Ok [empty_record].
Proof.
  split; [reflexivity|]. split; [reflexivity|].
  exact (eq_trans
           (proj1 (record_for_every_article keep_case no_class no_class
                     first_seen_order sample_fromstring sample_document
                     sample_root eq_refl eq_refl))
           eq_refl).
Defined.



(** The email in the affiliation of the investigator stands in an
    affiliation text under the article and is not in the record. *)
Lemma emails_anywhere_counterexample :
  ~ emails_of_every_field_anywhere keep_case no_class first_seen_order
      investigator_article.
Proof.
  intros H.
  assert (X : In (text "jane.roe@pfizer.com")
                (all_emails_of keep_case no_class first_seen_order
                   investigator_article)).
  { apply H. exists investigator_affiliation,
               (text "Pfizer Inc. jane.roe@pfizer.com").
    split; [right; right; now left|]. split; [reflexivity | now left]. }
  exact X.
Qed.

(** * Further properties *)

(** ** Affiliation classifier *)

Lemma has_keyword_subset (a b : list str) (s : str) :
  (forall w, In w a -> In w b) ->
  has_keyword a s = true -> has_keyword b s = true.
Proof.
  intros Hab H. unfold has_keyword in *.
  apply existsb_exists in H as [w [Hin Hc]]. apply existsb_exists. eauto.
Qed.

Lemma corporate_indicators_are_keywords (w : str) :
  In w corporate_indicators -> In w PHARMA_BIOTECH_KEYWORDS.
Proof.
  unfold corporate_indicators, PHARMA_BIOTECH_KEYWORDS. simpl. intuition.
Qed.

Lemma truthy_strip (s : str) : truthy (strip s) = negb (forallb isspace s).
Proof.
  destruct (forallb isspace s) eqn:B.
  - apply strip_nil in B. now rewrite B.
  - destruct (strip s) eqn:E; [|reflexivity].
    apply strip_nil in E. congruence.
Qed.

Section PatternsMore.

Variable unicode_alnum : N -> bool.

Local Abbreviation search := (re_search unicode_alnum).

Lemma pattern_word_is_keyword (alts : list str) (s : str) :
  (forall w, In w alts -> In w PHARMA_BIOTECH_KEYWORDS) ->
  search [Boundary; Group alts; Boundary] s = true ->
  has_keyword PHARMA_BIOTECH_KEYWORDS s = true.
Proof.
  intros Hsub H. apply search_group_contains in H as [w [Hin Hw]].
  unfold has_keyword. apply existsb_exists. eauto.
Qed.

Lemma patterns_need_keyword (s : str) :
  existsb (fun pattern => search pattern s) corporate_patterns = true ->
  has_keyword PHARMA_BIOTECH_KEYWORDS s = true.
Proof.
  unfold corporate_patterns. cbn [existsb]. rewrite !orb_true_iff.
  intros [H | [H | [H | [H | H]]]]; [| | | |discriminate H];
    (eapply pattern_word_is_keyword; [|exact H]);
    unfold PHARMA_BIOTECH_KEYWORDS; simpl; intuition.
Qed.

(** X1: a text matched by one of the four word-boundary patterns of the
    classifier contains a pharma/corporate keyword as a substring, so the
    patterns never change the answer of the keyword test they are or-ed
    with. *)
Theorem corporate_patterns_are_redundant (s : str) :
  (existsb (fun pattern => search pattern s) corporate_patterns = true ->
   has_keyword PHARMA_BIOTECH_KEYWORDS s = true)
  /\ has_keyword PHARMA_BIOTECH_KEYWORDS s
     || existsb (fun pattern => search pattern s) corporate_patterns
     = has_keyword PHARMA_BIOTECH_KEYWORDS s.
Proof.
  split; [apply patterns_need_keyword|].
  destruct (has_keyword PHARMA_BIOTECH_KEYWORDS s) eqn:K; [reflexivity|].
  simpl. apply not_true_is_false. intros H.
  apply patterns_need_keyword in H. congruence.
Qed.

End PatternsMore.

Section ClassifierMore.

Variable unicode_lower : str -> nat -> str.
Variable unicode_alnum : N -> bool.

Local Abbreviation lowered := (lower unicode_lower).
Local Abbreviation classify :=
  (is_non_academic_affiliation unicode_lower unicode_alnum).

(** X2: the classifier is a pair of substring tests on the lower-cased
    text: with an academic keyword it answers whether a corporate indicator
    occurs, without one whether a pharma/corporate keyword occurs; it never
    answers true on a text without a pharma/corporate keyword. *)
Theorem classify_by_substrings (affiliation : str) :
  classify affiliation
  = (if has_keyword ACADEMIC_KEYWORDS (lowered affiliation)
     then has_keyword corporate_indicators (lowered affiliation)
     else has_keyword PHARMA_BIOTECH_KEYWORDS (lowered affiliation))
  /\ (classify affiliation = true ->
      has_keyword PHARMA_BIOTECH_KEYWORDS (lowered affiliation) = true).
Proof.
  assert (E : classify affiliation
              = if has_keyword ACADEMIC_KEYWORDS (lowered affiliation)
                then has_keyword corporate_indicators (lowered affiliation)
                else has_keyword PHARMA_BIOTECH_KEYWORDS (lowered affiliation)).
  { unfold is_non_academic_affiliation.
    destruct (forallb isspace affiliation) eqn:B.
    - rewrite truthy_strip, B, orb_true_r, (lower_blank _ _ B).
      rewrite !has_keyword_blank by (assumption || reflexivity). reflexivity.
    - rewrite truthy_strip, B.
      destruct affiliation as [|c r]; [discriminate B|].
      cbn [truthy negb orb]. cbv zeta.
      fold (has_keyword corporate_indicators (lowered (c :: r))).
      destruct (has_keyword ACADEMIC_KEYWORDS _).
      + destruct (has_keyword PHARMA_BIOTECH_KEYWORDS _) eqn:K; [reflexivity|].
        symmetry. apply not_true_is_false. intros H.
        apply (has_keyword_subset _ _ _ corporate_indicators_are_keywords) in H.
        congruence.
      + destruct (has_keyword PHARMA_BIOTECH_KEYWORDS _) eqn:K; [reflexivity|].
        simpl. apply not_true_is_false. intros H.
        apply patterns_need_keyword in H. congruence. }
  split; [exact E|]. rewrite E.
  destruct (has_keyword ACADEMIC_KEYWORDS _); [|tauto].
  apply has_keyword_subset, corporate_indicators_are_keywords.
Qed.

Lemma lower_from_ascii (s whole : str) (i : nat) :
  forallb is_ascii s = true ->
  lower_from unicode_lower whole i s = map ascii_lower s.
Proof.
  revert i. induction s as [|c r IH]; simpl; intros i H; [reflexivity|].
  apply andb_true_iff in H as [Hc Hr]. rewrite (IH _ Hr).
  unfold lower_char, is_ascii in *. now rewrite Hc.
Qed.

Lemma isspace_ascii_lower (c : N) : isspace (ascii_lower c) = isspace c.
Proof.
  unfold ascii_lower. destruct ((65 <=? c) && (c <=? 90)) eqn:U; [|reflexivity].
  bool_to_prop U.
  assert (A : forall x, 65 <= x <= 122 -> isspace x = false).
  { intros x Hx. apply not_true_is_false. intros S.
    unfold isspace in S. bool_to_prop S. lia. }
  rewrite !A by lia. reflexivity.
Qed.

Lemma blank_ascii_lower (s : str) :
  forallb isspace (map ascii_lower s) = forallb isspace s.
Proof.
  induction s as [|c r IH]; simpl; [reflexivity|].
  now rewrite isspace_ascii_lower, IH.
Qed.

(** X3: on ASCII texts the classifier does not see letter case: two texts
    with the same ASCII case folding get the same answer. *)
Theorem classify_ignores_ascii_case (a b : str) :
  forallb is_ascii a = true -> forallb is_ascii b = true ->
  map ascii_lower a = map ascii_lower b ->
  classify a = classify b.
Proof.
  intros Ha Hb E.
  assert (L : lowered a = lowered b).
  { unfold lower. now rewrite !lower_from_ascii by assumption. }
  assert (B : forallb isspace a = forallb isspace b).
  { now rewrite <- (blank_ascii_lower a), <- (blank_ascii_lower b), E. }
  assert (T : truthy a = truthy b).
  { destruct a, b; try reflexivity; discriminate E. }
  unfold is_non_academic_affiliation. now rewrite !truthy_strip, L, B, T.
Qed.

End ClassifierMore.

Lemma classify_ignores_ascii_case_witness :
  is_non_academic_affiliation keep_case no_class (text "PFIZER Inc.")
  = is_non_academic_affiliation keep_case no_class (text "pfizer INC.").
Proof.
  exact (classify_ignores_ascii_case keep_case no_class
           (text "PFIZER Inc.") (text "pfizer INC.") eq_refl eq_refl eq_refl).
Defined.

(** ** Email extractor *)

Lemma firstn_plus (n m : nat) (s : str) :
  firstn (n + m) s = firstn n s ++ firstn m (skipn n s).
Proof.
  revert s. induction n as [|n IH]; intros s; [reflexivity|].
  destruct s as [|c r]; simpl; [now rewrite firstn_nil | now rewrite IH].
Qed.

Lemma firstn_length_app (a b : str) : firstn (length a) (a ++ b) = a.
Proof. induction a as [|c a IH]; simpl; [reflexivity | now rewrite IH]. Qed.

Lemma run_firstn (cls : N -> bool) (s : str) (j : nat) :
  (j <= run cls s)%nat -> forallb cls (firstn j s) = true.
Proof.
  revert j. induction s as [|c r IH]; intros j H; simpl in H.
  - now rewrite firstn_nil.
  - destruct j as [|j]; [reflexivity|]. simpl.
    destruct (cls c); [|lia]. simpl. apply IH. lia.
Qed.

Section EmailsMore.

Variable unicode_alnum : N -> bool.

Local Abbreviation emails_in := (extract_emails unicode_alnum).
Local Abbreviation match_at := (match_here unicode_alnum).

Lemma match_boundary (p : list atom) (prev : option N) (s : str) (n : nat) :
  match_at (Boundary :: p) prev s = Some n -> match_at p prev s = Some n.
Proof. cbn [match_here]. destruct (xorb _ _); [tauto | discriminate]. Qed.

Lemma match_literal (c : N) (p : list atom) (prev : option N) (s : str)
    (n : nat) :
  match_at (Literal c :: p) prev s = Some n ->
  exists r m, s = c :: r /\ match_at p (Some c) r = Some m /\ n = S m.
Proof.
  cbn [match_here]. destruct s as [|x r]; [discriminate|].
  destruct (N.eqb_spec x c) as [->|]; [|discriminate].
  destruct (match_here unicode_alnum p (Some c) r) as [m|] eqn:E;
    [|discriminate].
  intros H. injection H as <-. now exists r, m.
Qed.

Lemma match_class (cls : N -> bool) (min : nat) (p : list atom)
    (prev : option N) (s : str) (n : nat) :
  match_at (Class cls min :: p) prev s = Some n ->
  exists j m,
    (min <= j)%nat /\ length (firstn j s) = j
    /\ forallb cls (firstn j s) = true
    /\ match_at p (last_of prev (firstn j s)) (skipn j s) = Some m
    /\ n = (j + m)%nat.
Proof.
  cbn [match_here]. intros H. apply greedy_some in H as [j [Hj H]].
  destruct (match_here unicode_alnum p _ (skipn j s)) as [m|] eqn:E;
    [|discriminate].
  injection H as <-. exists j, m. pose proof (run_length cls s) as L.
  repeat split; try lia; try assumption.
  - rewrite length_firstn. lia.
  - apply run_firstn. lia.
Qed.

(** What the email pattern matches is a local part, the at sign, a domain,
    a dot and a top-level part of two characters at least. *)
Lemma email_match_shape (prev : option N) (s : str) (n : nat) :
  match_at email_pattern prev s = Some n -> email_shape (firstn n s).
Proof.
  unfold email_pattern. intros H. apply match_boundary in H.
  apply match_class in H as [j1 [m1 [M1 [L1 [C1 [H ->]]]]]].
  apply match_literal in H as [r1 [m2 [S1 [H ->]]]].
  apply match_class in H as [j2 [m3 [M2 [L2 [C2 [H ->]]]]]].
  apply match_literal in H as [r2 [m4 [S2 [H ->]]]].
  apply match_class in H as [j3 [m5 [M3 [L3 [C3 [H ->]]]]]].
  apply match_boundary in H. cbn [match_here] in H. injection H as <-.
  exists (firstn j1 s), (firstn j2 r1), (firstn j3 r2).
  rewrite firstn_plus, S1. cbn [firstn]. rewrite firstn_plus, S2.
  cbn [firstn]. rewrite Nat.add_0_r.
  repeat split; try assumption.
  - intros E. rewrite E in L1. simpl in L1. lia.
  - intros E. rewrite E in L2. simpl in L2. lia.
  - lia.
Qed.

Lemma extract_emails_matched (s e : str) :
  In e (emails_in (Some s)) ->
  exists pre post,
    s = pre ++ e ++ post
    /\ match_at email_pattern (last_of None pre) (e ++ post) = Some (length e).
Proof.
  unfold extract_emails, unique. destruct s as [|c r]; [intros []|].
  cbn [truthy negb]. rewrite fold_append_new. simpl app.
  intros H. apply first_seen_In in H as [H _].
  now apply findall_from_matches in H.
Qed.

(** X4: every email that [extract_emails] returns has the form
    local@domain.tld: a non-empty local part of letters, digits and
    [._%+-], a non-empty domain of letters, digits, dots and hyphens, and
    after its last dot at least two characters that are letters or bars. *)
Theorem extract_emails_shape (s e : str) :
  In e (emails_in (Some s)) -> email_shape e.
Proof.
  intros H. apply extract_emails_matched in H as [pre [post [_ M]]].
  apply email_match_shape in M. now rewrite firstn_length_app in M.
Qed.

(** X5: a text without an at sign gives no email. *)
Theorem extract_emails_needs_at (s : str) :
  ~ In 64 s -> emails_in (Some s) = [].
Proof.
  intros Hn. destruct (emails_in (Some s)) as [|e l] eqn:E; [reflexivity|].
  exfalso. apply Hn.
  assert (H : In e (emails_in (Some s))) by (rewrite E; now left).
  pose proof (extract_emails_matched _ _ H) as [pre [post [-> M]]].
  apply email_match_shape in M. rewrite firstn_length_app in M.
  destruct M as [local [domain [tld [-> _]]]].
  rewrite !in_app_iff. right. left. right. now left.
Qed.

End EmailsMore.

Lemma extract_emails_shape_witness :
  email_shape (text "john.doe@pfizer.com").
Proof.
  apply (extract_emails_shape no_class
           (text "Contact: john.doe@pfizer.com") (text "john.doe@pfizer.com")).
  now left.
Defined.

Lemma extract_emails_needs_at_witness :
  extract_emails no_class (Some (text "Pfizer Inc., New York, USA")) = [].
Proof.
  apply extract_emails_needs_at. vm_compute. intuition discriminate.
Defined.

(** ** Date normaliser *)

Lemma join_head_nil (sep p : str) (rest : list str) :
  join sep (p :: rest) = [] -> p = [].
Proof.
  destruct rest; simpl; [tauto|]. intros H. now apply app_eq_nil in H.
Qed.

Lemma pad2_length (s : str) :
  (length s <= 2)%nat -> length (pad2 s) = 2%nat.
Proof.
  intros H. unfold pad2. rewrite length_app, repeat_length. lia.
Qed.

Lemma pad2_nonempty (s : str) : s <> [] -> pad2 s <> [].
Proof.
  unfold pad2. intros H E. apply app_eq_nil in E. tauto.
Qed.

Lemma month_number_short (prefix number : str) :
  month_number month_map prefix = Some number ->
  (1 <= length number <= 2)%nat.
Proof.
  intros H. apply month_number_In in H. unfold month_map in H. simpl in H.
  repeat (destruct H as [H|H]; [injection H as _ <-; simpl; lia|]).
  destruct H.
Qed.

(** X6: [convert_month_name_to_number] looks at the first three characters
    only: a text that starts with a name of the table gives the number of
    that name whatever follows, any other text is returned as it is, and
    converting twice is converting once. *)
Theorem convert_month_by_prefix :
  (forall name number rest,
     In (name, number) month_map ->
     convert_month_name_to_number (name ++ rest) = number)
  /\ (forall month,
        month_number month_map (firstn 3 month) = None ->
        convert_month_name_to_number month = month)
  /\ (forall month,
        convert_month_name_to_number (convert_month_name_to_number month)
        = convert_month_name_to_number month).
Proof.
  assert (Other : forall month,
            month_number month_map (firstn 3 month) = None ->
            convert_month_name_to_number month = month).
  { intros month H. unfold convert_month_name_to_number.
    now rewrite month_number_get, H. }
  split; [|split; [exact Other|]].
  - intros name number rest H. unfold month_map in H. simpl in H.
    repeat (destruct H as [H|H]; [injection H as <- <-; reflexivity|]).
    destruct H.
  - intros month.
    destruct (month_number month_map (firstn 3 month)) as [number|] eqn:E.
    + assert (C : convert_month_name_to_number month = number).
      { unfold convert_month_name_to_number. now rewrite month_number_get, E. }
      rewrite C. apply month_number_In in E. unfold month_map in E.
      simpl in E.
      repeat (destruct E as [E|E]; [injection E as _ <-; reflexivity|]).
      destruct E.
    + now rewrite !(Other _ E).
Qed.

Section DatesMore.

Variable unicode_digit : N -> bool.

Local Abbreviation numeric := (isdigit unicode_digit).
Local Abbreviation date_from := (date_of_fields unicode_digit).

Lemma normalize_month_nonempty (month : str) :
  month <> [] -> normalize_month unicode_digit month <> [].
Proof.
  intros H. unfold normalize_month.
  destruct (month_number month_map (firstn 3 month)) as [number|] eqn:E.
  - apply pad2_nonempty. apply month_number_short in E.
    intros ->. simpl in E. lia.
  - destruct (numeric month); [now apply pad2_nonempty | assumption].
Qed.

Lemma normalize_day_nonempty (day : str) :
  day <> [] -> normalize_day unicode_digit day <> [].
Proof.
  intros H. unfold normalize_day.
  destruct (numeric day); [now apply pad2_nonempty | assumption].
Qed.

Lemma date_from_fields (year month day : str) :
  date_from year month day
  = normalizeDate unicode_digit (Some year) (Some month) (Some day).
Proof. now rewrite <- date_of_fields_normalizeDate. Qed.

(** X7: the date built from the three fields is empty only when the three
    fields are empty; an article gets the empty date only when it has no
    PubDate node or its first PubDate node has no year, month and day
    text. *)
Theorem date_empty_only_without_fields :
  (forall year month day,
     date_from year month day = [] <-> year = [] /\ month = [] /\ day = [])
  /\ (forall article,
        extract_publication_date unicode_digit article = []
        <-> match find article [Descendant (text "PubDate")] with
            | None => True
            | Some pubdate =>
                or_empty (findtext pubdate [Child (text "Year")]) = []
                /\ or_empty (findtext pubdate [Child (text "Month")]) = []
                /\ or_empty (findtext pubdate [Child (text "Day")]) = []
            end).
Proof.
  assert (F : forall year month day,
            date_from year month day = []
            <-> year = [] /\ month = [] /\ day = []).
  { intros year month day. split.
    - rewrite date_from_fields. unfold normalizeDate.
      destruct year as [|y0 y], month as [|m0 m], day as [|d0 d];
        cbn [present map app]; intros H; try tauto; exfalso;
        apply join_head_nil in H; try discriminate H;
        revert H; (apply normalize_month_nonempty
                   || apply normalize_day_nonempty); discriminate.
    - intros [-> [-> ->]]. reflexivity. }
  split; [exact F|].
  intros article. unfold extract_publication_date.
  destruct (find article _); [apply F | tauto].
Qed.

(** X8: a four-digit year, a month that is a name of the table or one or
    two digits, and a day of one or two digits give a date of exactly ten
    characters. *)
Theorem date_of_full_fields_has_ten_characters (year month day : str) :
  numeric year = true -> length year = 4%nat ->
  month_number month_map (firstn 3 month) <> None
  \/ (numeric month = true /\ (length month <= 2)%nat) ->
  numeric day = true -> (length day <= 2)%nat ->
  length (date_from year month day) = 10%nat.
Proof.
  intros Hy Ly Hm Hd Ld. rewrite date_from_fields. unfold normalizeDate.
  assert (T : forall s, numeric s = true -> exists c r, s = c :: r).
  { intros [|c r] H; [discriminate H | eauto]. }
  destruct (T _ Hy) as [y0 [y ->]]. destruct (T _ Hd) as [d0 [d ->]].
  assert (M : exists m0 m, month = m0 :: m).
  { destruct month as [|m0 m]; [|eauto].
    destruct Hm as [Hm | [Hm _]]; [now contradiction Hm | discriminate Hm]. }
  destruct M as [m0 [m ->]].
  change (present (Some (y0 :: y))
          ++ map (normalize_month unicode_digit) (present (Some (m0 :: m)))
          ++ map (normalize_day unicode_digit) (present (Some (d0 :: d))))
    with [y0 :: y; normalize_month unicode_digit (m0 :: m);
          normalize_day unicode_digit (d0 :: d)].
  cbn [join].
  assert (LM : length (normalize_month unicode_digit (m0 :: m)) = 2%nat).
  { unfold normalize_month.
    destruct (month_number month_map (firstn 3 (m0 :: m))) as [number|] eqn:E.
    - apply pad2_length. apply month_number_short in E. lia.
    - destruct Hm as [Hm | [Hm Lm]]; [now contradiction Hm|].
      rewrite Hm. now apply pad2_length. }
  assert (LD : length (normalize_day unicode_digit (d0 :: d)) = 2%nat).
  { unfold normalize_day. rewrite Hd. now apply pad2_length. }
  rewrite !length_app, Ly, LM, LD. reflexivity.
Qed.

End DatesMore.

Lemma date_of_full_fields_witness :
  length (date_of_fields no_class (text "2023") (text "July") (text "4")) = 10%nat.
Proof.
  apply date_of_full_fields_has_ten_characters; try reflexivity.
  - left. discriminate.
  - simpl. lia.
Defined.

(** ** Document parser *)

Lemma strip_fixed (v : str) : no_surrounding_space v -> strip v = v.
Proof.
  intros [Hh Hl]. unfold strip, rstrip.
  assert (L : lstrip v = v).
  { destruct v as [|c r]; [reflexivity|]. simpl. now rewrite (Hh c r eq_refl). }
  rewrite L. destruct (rev v) as [|c r] eqn:E.
  - apply (f_equal (@rev N)) in E. now rewrite rev_involutive in E.
  - assert (V : v = rev r ++ [c]).
    { apply (f_equal (@rev N)) in E. now rewrite rev_involutive in E. }
    simpl. rewrite (Hl c (rev r) V). simpl. now rewrite V.
Qed.

Lemma no_surrounding_space_between (a m b : str) :
  no_surrounding_space a -> no_surrounding_space b -> a <> [] -> b <> [] ->
  no_surrounding_space (a ++ m ++ b).
Proof.
  intros [Ha _] [_ Hb] Na Nb. split; intros c r E.
  - destruct a as [|a0 a]; [contradiction|]. injection E as <- _.
    now apply (Ha a0 a).
  - destruct (exists_last Nb) as [b' [y ->]].
    rewrite !app_assoc in E. apply app_inj_tail in E as [_ <-].
    now apply (Hb y b').
Qed.

Lemma join_nil_iff (sep : str) (l : list str) :
  (forall x, In x l -> x <> []) -> join sep l = [] <-> l = [].
Proof.
  intros H. split; [|now intros ->].
  destruct l as [|p rest]; [reflexivity|]. intros E.
  apply join_head_nil in E. exfalso. apply (H p); [now left | assumption].
Qed.

Lemma first_seen_nil (l : list str) : first_seen [] l = [] <-> l = [].
Proof. destruct l; simpl; split; congruence. Qed.

Lemma filter_map_swap {A B : Type} (p : B -> bool) (f : A -> B) (l : list A) :
  filter p (map f l) = map f (filter (fun x => p (f x)) l).
Proof.
  induction l as [|x l IH]; simpl; [reflexivity|].
  destruct (p (f x)); simpl; now rewrite IH.
Qed.

Lemma existsb_filter {A : Type} (p : A -> bool) (l : list A) :
  existsb p l = match filter p l with [] => false | _ :: _ => true end.
Proof.
  induction l as [|x l IH]; simpl; [reflexivity|].
  destruct (p x); simpl; [reflexivity | exact IH].
Qed.

Lemma affiliation_nonempty_stripped (author : Element) (aff : str) :
  In aff (author_affiliations_of author) ->
  aff <> [] /\ no_surrounding_space aff.
Proof.
  unfold author_affiliations_of. rewrite in_flat_map.
  intros [aff_info [_ H]].
  destruct (extract_text aff_info _) as [t|] eqn:E; [|destruct H].
  destruct (truthy t) eqn:T; [|destruct H]. destruct H as [<- | []].
  split; [intros ->; discriminate T|].
  unfold extract_text, extract_text_from in E.
  destruct (find aff_info _) as [found|]; [|discriminate E].
  destruct (text_of found) as [x|]; [|discriminate E].
  destruct (truthy x); [|discriminate E]. injection E as <-.
  apply strip_no_surrounding_space.
Qed.

Lemma full_name_no_surrounding_space (author : Element) :
  no_surrounding_space (full_name_of author).
Proof. unfold full_name_of. cbv zeta. apply strip_no_surrounding_space. Qed.

(** X9: the full name of an author is the given name, a space and the last
    name, the ForeName being taken before the Initials; with one of the two
    parts missing it is the other part alone, and the final [strip] changes
    nothing because the parts are stripped already. *)
Theorem full_name_from_fields (author : Element) :
  full_name_of author
  = name_of_fields (first_text author [Child (text "ForeName")])
      (first_text author [Child (text "Initials")])
      (first_text author [Child (text "LastName")]).
Proof.
  unfold full_name_of, name_of_fields. cbv zeta.
  rewrite !extract_text_first_text.
  pose proof (first_text_no_surrounding_space author
                [Child (text "ForeName")]) as Hf.
  pose proof (first_text_no_surrounding_space author
                [Child (text "Initials")]) as Hi.
  pose proof (first_text_no_surrounding_space author
                [Child (text "LastName")]) as Hl.
  set (given := if truthy (first_text author [Child (text "ForeName")])
                then first_text author [Child (text "ForeName")]
                else first_text author [Child (text "Initials")]).
  assert (Hg : no_surrounding_space given).
  { unfold given. now destruct (truthy _). }
  clearbody given.
  destruct given as [|g0 g], (first_text author [Child (text "LastName")])
    as [|l0 l]; cbn [filter truthy join].
  - reflexivity.
  - now apply strip_fixed.
  - now apply strip_fixed.
  - apply strip_fixed.
    apply no_surrounding_space_between; (assumption || discriminate).
Qed.

Section ParserMore.

Variable unicode_lower : str -> nat -> str.
Variable unicode_alnum : N -> bool.
Variable unicode_digit : N -> bool.
Variable set_order : list str -> list str.

Local Abbreviation classify :=
  (is_non_academic_affiliation unicode_lower unicode_alnum).
Local Abbreviation listed := (listed_author unicode_lower unicode_alnum).
Local Abbreviation companies_of :=
  (company_affiliations_of unicode_lower unicode_alnum).
Local Abbreviation authors_loop := (process_authors unicode_lower unicode_alnum).
Local Abbreviation one_author := (author_step unicode_lower unicode_alnum).
Local Abbreviation parse_article :=
  (parse_single_article unicode_lower unicode_alnum unicode_digit set_order).

Lemma companies_append_new (affs acc : list str) :
  fold_left (fun acc aff =>
               if classify aff && negb (mem aff acc) then acc ++ [aff] else acc)
    affs acc
  = fold_left append_new (filter classify affs) acc.
Proof.
  revert acc. induction affs as [|a affs IH]; intros acc; simpl; [reflexivity|].
  rewrite IH. destruct (classify a); simpl; [|reflexivity].
  unfold append_new. now destruct (mem a acc).
Qed.

Lemma loop_names_order (l : list Element) (st : authors_state) :
  non_academic_authors (fold_left one_author l st)
  = fold_left append_new (map full_name_of (filter listed l))
      (non_academic_authors st).
Proof.
  revert st. induction l as [|a l IH]; intros st; simpl; [reflexivity|].
  rewrite IH, step_names. unfold listed_author.
  destruct (_ && _); reflexivity.
Qed.

Lemma loop_companies_order (l : list Element) (st : authors_state) :
  company_affiliations (fold_left one_author l st)
  = fold_left append_new (flat_map companies_of (filter listed l))
      (company_affiliations st).
Proof.
  revert st. induction l as [|a l IH]; intros st; simpl; [reflexivity|].
  rewrite IH, step_companies. unfold listed_author.
  destruct (_ && _); [|reflexivity].
  simpl. now rewrite fold_left_app, companies_append_new.
Qed.

Lemma names_first_seen (article : Element) :
  non_academic_authors (authors_loop article)
  = first_seen [] (map full_name_of (filter listed (authors_of article))).
Proof.
  unfold process_authors. rewrite loop_names_order. simpl.
  now rewrite fold_append_new.
Qed.

Lemma companies_first_seen (article : Element) :
  company_affiliations (authors_loop article)
  = first_seen [] (flat_map companies_of (filter listed (authors_of article))).
Proof.
  unfold process_authors. rewrite loop_companies_order. simpl.
  now rewrite fold_append_new.
Qed.

Lemma listed_has_company (author : Element) :
  listed author = true -> companies_of author <> [].
Proof.
  unfold listed_author, has_non_academic, company_affiliations_of.
  intros H. apply andb_true_iff in H as [H _]. rewrite existsb_filter in H.
  intros E. rewrite E in H. discriminate H.
Qed.

Lemma listed_name_nonempty (author : Element) :
  listed author = true -> full_name_of author <> [].
Proof.
  unfold listed_author. intros H. apply andb_true_iff in H as [_ H].
  intros E. rewrite E in H. discriminate H.
Qed.

Lemma names_members (article : Element) (name : str) :
  In name (non_academic_authors (authors_loop article)) ->
  name <> [] /\ no_surrounding_space name.
Proof.
  rewrite names_first_seen, first_seen_In, in_map_iff.
  intros [[a [<- Ha]] _]. apply filter_In in Ha as [_ Ha].
  split; [now apply listed_name_nonempty | apply full_name_no_surrounding_space].
Qed.

Lemma companies_members (article : Element) (aff : str) :
  In aff (company_affiliations (authors_loop article)) ->
  aff <> [] /\ no_surrounding_space aff.
Proof.
  rewrite companies_first_seen, first_seen_In, in_flat_map.
  intros [[a [_ Ha]] _]. unfold company_affiliations_of in Ha.
  apply filter_In in Ha as [Ha _]. now apply affiliation_nonempty_stripped in Ha.
Qed.

(** X10: the names of the Non-academic Author(s) field stand in document
    order: the full names of the listed authors, each one kept at its first
    occurrence. *)
Theorem names_in_document_order (article : Element) :
  field (text "Non-academic Author(s)") (parse_article article)
  = Some (join (text "; ") (non_academic_authors (authors_loop article)))
  /\ non_academic_authors (authors_loop article)
     = first_seen [] (map full_name_of (filter listed (authors_of article))).
Proof. split; [reflexivity | apply names_first_seen]. Qed.

(** X11: the affiliations of the Company Affiliation(s) field stand in
    document order: the non-academic affiliations of the listed authors,
    author by author, each one kept at its first occurrence. *)
Theorem companies_in_document_order (article : Element) :
  field (text "Company Affiliation(s)") (parse_article article)
  = Some (join (text "; ") (company_affiliations (authors_loop article)))
  /\ company_affiliations (authors_loop article)
     = first_seen []
         (flat_map companies_of (filter listed (authors_of article))).
Proof. split; [reflexivity | apply companies_first_seen]. Qed.

(** X12: in a record the Non-academic Author(s) value and the Company
    Affiliation(s) value are empty together. *)
Theorem names_and_companies_empty_together (article : Element) :
  field (text "Non-academic Author(s)") (parse_article article) = Some []
  <-> field (text "Company Affiliation(s)") (parse_article article) = Some [].
Proof.
  change (Some (join (text "; ") (non_academic_authors (authors_loop article)))
          = Some []
          <-> Some (join (text "; ")
                      (company_affiliations (authors_loop article)))
              = Some []).
  assert (S : forall x : str, Some x = Some [] <-> x = []).
  { intros x. split; [now intros [= ->] | now intros ->]. }
  rewrite !S.
  rewrite (join_nil_iff _ _ (fun x H => proj1 (names_members article x H))).
  rewrite (join_nil_iff _ _ (fun x H => proj1 (companies_members article x H))).
  rewrite names_first_seen, companies_first_seen, !first_seen_nil.
  destruct (filter listed (authors_of article)) as [|a l] eqn:F.
  - simpl. tauto.
  - assert (La : listed a = true).
    { assert (I : In a (filter listed (authors_of article)))
        by (rewrite F; now left).
      now apply filter_In in I. }
    split; [discriminate|]. simpl. intros E. apply app_eq_nil in E as [E _].
    now apply listed_has_company in La.
Qed.

(** X13: every affiliation text collected for an author, every name of the
    list of non-academic authors and every affiliation of the list of
    companies is non-empty and has no white space at either end; the
    classifier is never called on a blank text. *)
Theorem names_and_companies_are_stripped (article : Element) :
  (forall author aff, In aff (author_affiliations_of author) ->
                      aff <> [] /\ no_surrounding_space aff)
  /\ (forall name, In name (non_academic_authors (authors_loop article)) ->
                   name <> [] /\ no_surrounding_space name)
  /\ (forall aff, In aff (company_affiliations (authors_loop article)) ->
                  aff <> [] /\ no_surrounding_space aff).
Proof.
  split; [apply affiliation_nonempty_stripped|].
  split; [apply names_members | apply companies_members].
Qed.

Lemma record_kept_iff_listed (article : Element) :
  truthy (or_empty (field (text "Non-academic Author(s)")
                      (parse_article article)))
  = existsb listed (authors_of article).
Proof.
  change (truthy (join (text "; ") (non_academic_authors (authors_loop article)))
          = existsb listed (authors_of article)).
  rewrite names_first_seen, existsb_filter.
  destruct (filter listed (authors_of article)) as [|a l] eqn:F; [reflexivity|].
  assert (La : listed a = true).
  { assert (I : In a (filter listed (authors_of article)))
      by (rewrite F; now left).
    now apply filter_In in I. }
  apply listed_name_nonempty in La. simpl.
  destruct (full_name_of a) as [|c r]; [contradiction|].
  destruct (first_seen _ _); reflexivity.
Qed.

(** X14: every address of the Corresponding Author Email list has the form
    local@domain.tld of the email pattern. *)
Theorem corresponding_emails_shape (article : Element) (e : str) :
  lists_the_set set_order ->
  In e (all_emails_of unicode_lower unicode_alnum set_order article) ->
  email_shape e.
Proof.
  intros H He. unfold all_emails_of in He.
  apply (proj1 (proj2 (H _) e)) in He.
  assert (Shape : forall t, In e (extract_emails unicode_alnum (Some t)) ->
                            email_shape e).
  { intros t Ht. apply extract_emails_matched in Ht as [pre [post [_ M]]].
    apply email_match_shape in M. now rewrite firstn_length_app in M. }
  apply in_app_iff in He as [He | He].
  - unfold process_authors in He. rewrite loop_emails in He. simpl in He.
    apply in_flat_map in He as [a [_ He]].
    apply in_flat_map in He as [aff [_ He]]. now apply Shape in He.
  - unfold corresponding_emails_of in He.
    apply in_app_iff in He as [He | He];
      apply emails_from_elements_In in He as [el [t [_ [_ He]]]];
      now apply Shape in He.
Qed.

Section DocumentsMore.

Variable fromstring : str -> res Element.

Local Abbreviation parse :=
  (parse_pubmed_records unicode_lower unicode_alnum unicode_digit set_order
     fromstring).

Lemma parse_found (xml_data : str) (root : Element) :
  truthy (strip xml_data) = true -> fromstring xml_data = Ok root ->
  parse xml_data
  = Ok (map parse_article (findall root [Descendant (text "PubmedArticle")])).
Proof.
  intros Hb Hr. unfold parse_pubmed_records.
  rewrite (parse_with_found _ _ _ _ Hb Hr). reflexivity.
Qed.

(** X15: every record that [parse_pubmed_records] returns has the six
    columns, in the same order. *)
Theorem records_have_six_columns (xml_data : str) (records : list record) :
  parse xml_data = Ok records ->
  forall r, In r records -> map fst r = column_names.
Proof.
  unfold parse_pubmed_records, parse_pubmed_records_with.
  destruct (negb (truthy (strip xml_data))).
  - intros [= <-] r [].
  - destruct (fromstring xml_data) as [root|[|]]; try discriminate.
    + intros [= <-] r. rewrite process_articles_extracted. simpl.
      unfold extracted. rewrite in_flat_map. intros [a [_ [<- | []]]].
      reflexivity.
    + intros [= <-] r [].
Qed.

(** X16: the records that the command line keeps are the records of the
    articles with a listed author (a non-empty full name and an affiliation
    classified non-academic), in document order. *)
Theorem filtered_data_of_parsed (xml_data : str) (root : Element) :
  truthy (strip xml_data) = true -> fromstring xml_data = Ok root ->
  exists parsed_data,
    parse xml_data = Ok parsed_data
    /\ filtered_data parsed_data
       = map parse_article
           (filter (fun article => existsb listed (authors_of article))
              (findall root [Descendant (text "PubmedArticle")])).
Proof.
  intros Hb Hr. eexists. split; [exact (parse_found _ _ Hb Hr)|].
  unfold filtered_data. rewrite filter_map_swap. f_equal.
  apply filter_ext. intros a. apply record_kept_iff_listed.
Qed.

End DocumentsMore.

End ParserMore.

(** ** Instances on the sample documents *)

Lemma corresponding_emails_shape_witness :
  lists_the_set first_seen_order
  /\ In (text "data@bank.org")
       (all_emails_of keep_case no_class first_seen_order sample_article)
  /\ email_shape (text "data@bank.org").
Proof.
  assert (I : In (text "data@bank.org")
                (all_emails_of keep_case no_class first_seen_order
                   sample_article)).
  { right. now left. }
  split; [exact first_seen_order_lists_the_set|]. split; [exact I|].
  exact (corresponding_emails_shape keep_case no_class first_seen_order
           sample_article _ first_seen_order_lists_the_set I).
Defined.

Lemma records_have_six_columns_witness :
  parse_pubmed_records keep_case no_class no_class first_seen_order
    two_articles_fromstring two_articles_document
  = Ok [parse_single_article keep_case no_class no_class first_seen_order
          sample_article; empty_record]
  /\ map fst empty_record = column_names.
Proof.
  assert (P : parse_pubmed_records keep_case no_class no_class
                first_seen_order two_articles_fromstring two_articles_document
              = Ok [parse_single_article keep_case no_class no_class
                      first_seen_order sample_article; empty_record])
    by reflexivity.
  split; [exact P|].
  apply (records_have_six_columns keep_case no_class no_class first_seen_order
           two_articles_fromstring two_articles_document _ P).
  right. now left.
Defined.

Lemma filtered_data_of_parsed_witness :
  truthy (strip two_articles_document) = true
  /\ two_articles_fromstring two_articles_document = Ok two_articles_root
  /\ exists parsed_data,
       parse_pubmed_records keep_case no_class no_class first_seen_order
         two_articles_fromstring two_articles_document = Ok parsed_data
       /\ filtered_data parsed_data
          = map (parse_single_article keep_case no_class no_class
                   first_seen_order)
              (filter (fun article =>
                         existsb (listed_author keep_case no_class)
                           (authors_of article))
                 (findall two_articles_root
                    [Descendant (text "PubmedArticle")])).
Proof.
  split; [reflexivity|]. split; [reflexivity|].
  exact (filtered_data_of_parsed keep_case no_class no_class first_seen_order
           two_articles_fromstring two_articles_document two_articles_root
           eq_refl eq_refl).
Defined.

(** Of the two articles the command line keeps the first. *)
Example filtered_data_two_articles :
  filtered_data
    [parse_single_article keep_case no_class no_class first_seen_order
       sample_article; empty_record]
  = [parse_single_article keep_case no_class no_class first_seen_order
       sample_article].
Proof. vm_compute. reflexivity. Qed.
